(** * blink_fade_pio_pwm: a PIO pulse-width modulator and its fade driver

    A shallow embedding of [blink_fade_pio_pwm.py].

    - [Module Pio]: the state machine of one RP2040 PIO block as far as
      the program [pwm_prog] uses it: two scratch registers, the two
      shift registers, one side-set pin, the TX FIFO, and the six
      instructions of [pwm_prog] with wrap-around from the last one to
      the first.  One step is one instruction, which is one clock
      cycle, as no instruction of the program has a delay.
    - [Module Pwm]: the Python side, the class [PIOPWM] with [__init__]
      and [set], the timer callback [tick], and the controller and the
      state machine running side by side.
    - [Module Period]: the closed form of one period of the program.
    - [StepFacts], [PeriodFacts], [SystemFacts]: lemmas.
    - The properties of the program, each under its number.
    - [RunFacts], [WaitFacts], [CallFacts], [DutyFacts]: more lemmas,
      and further properties.

    Registers are 32-bit words, modelled as [Z] in [0, 2^32) with the
    wrap-around written out.  Python integers are unbounded, modelled
    as [Z].

    The meaning of the PIO instructions and of [StateMachine.put] is
    that of the hardware and of MicroPython's [rp2] module:

    - a side-set value is driven when its instruction executes;
    - [pull(noblock)] moves the oldest word of the TX FIFO to the OSR,
      and copies scratch X to the OSR when the FIFO is empty;
    - [jmp(x_not_y, l)] jumps when X and Y differ;
    - [jmp(y_dec, l)] jumps when Y is not 0 before the decrement, and
      decrements Y whether it jumps or not;
    - [put] truncates a Python integer to 32 bits, waits while the
      four-word TX FIFO is full, and then appends the word. *)

From Stdlib Require Import ZArith List Bool Lia Arith.
Import ListNotations.

Local Open Scope Z_scope.

(* ================================================================= *)
(** ** The PIO state machine *)

Module Pio.

(** A register holds 32 bits. *)
Definition WORD : Z := 2 ^ 32.

(** What [StateMachine.put] stores for a Python integer: the integer
    truncated to 32 bits, so [-1] is stored as [2^32 - 1]. *)
Definition to_word (v : Z) : Z := v mod WORD.

(** The TX FIFO of one state machine holds four words (the program is
    assembled without joining the RX FIFO to it). *)
Definition TX_DEPTH : nat := 4.

Inductive reg : Type := X | Y | OSR | ISR.

(** Jump conditions used by [pwm_prog]. *)
Inductive cond : Type :=
| x_not_y   (* scratch X differs from scratch Y *)
| y_dec.    (* scratch Y non-zero before the decrement; Y is always decremented *)

Inductive op : Type :=
| pull (block : bool)
| mov (dst src : reg)
| jmp (c : cond) (target : nat)
| nop.

(** An instruction with its optional side-set value: [.side(0)] is
    [Some false], [.side(1)] is [Some true]. *)
Record instr : Type := Instr { i_op : op; i_side : option bool }.

Definition plain (o : op) : instr := Instr o None.
Definition side (o : op) (b : bool) : instr := Instr o (Some b).

(** Labels of [pwm_prog], as instruction addresses. *)
Definition pwmloop : nat := 3.
Definition skip : nat := 5.

(** The program, one entry per assembled instruction. *)
Definition pwm_prog : list instr :=
  [ side (pull false) false      (* 0: pull(noblock) .side(0) *)
  ; plain (mov X OSR)            (* 1: mov(x, osr)            *)
  ; plain (mov Y ISR)            (* 2: mov(y, isr)            *)
  ; plain (jmp x_not_y skip)     (* 3: pwmloop: jmp(x_not_y, "skip") *)
  ; side nop true                (* 4: nop() .side(1)         *)
  ; plain (jmp y_dec pwmloop)    (* 5: skip: jmp(y_dec, "pwmloop")   *)
  ].

Record sm_state : Type := SM
  { pc : nat
  ; x : Z
  ; y : Z
  ; osr : Z
  ; isr : Z
  ; pin : bool              (* the side-set pin: [true] is HIGH *)
  ; tx_fifo : list Z        (* oldest word first *)
  }.

Definition get (r : reg) (s : sm_state) : Z :=
  match r with X => x s | Y => y s | OSR => osr s | ISR => isr s end.

Definition set_reg (r : reg) (v : Z) (s : sm_state) : sm_state :=
  match r with
  | X => SM (pc s) v (y s) (osr s) (isr s) (pin s) (tx_fifo s)
  | Y => SM (pc s) (x s) v (osr s) (isr s) (pin s) (tx_fifo s)
  | OSR => SM (pc s) (x s) (y s) v (isr s) (pin s) (tx_fifo s)
  | ISR => SM (pc s) (x s) (y s) (osr s) v (pin s) (tx_fifo s)
  end.

Definition set_pc (n : nat) (s : sm_state) : sm_state :=
  SM n (x s) (y s) (osr s) (isr s) (pin s) (tx_fifo s).

Definition set_pin (b : bool) (s : sm_state) : sm_state :=
  SM (pc s) (x s) (y s) (osr s) (isr s) b (tx_fifo s).

Definition set_fifo (q : list Z) (s : sm_state) : sm_state :=
  SM (pc s) (x s) (y s) (osr s) (isr s) (pin s) q.

(** The address after [n]: the program wraps from its last instruction
    to its first. *)
Definition next_pc (n : nat) : nat :=
  if (S n <? length pwm_prog)%nat then S n else 0%nat.

(** The side-set is applied when the instruction executes, whatever the
    instruction does. *)
Definition apply_side (sd : option bool) (s : sm_state) : sm_state :=
  match sd with
  | Some b => set_pin b s
  | None => s
  end.

(** One operation, without its side-set and without the program
    counter.  The result is the new state and the jump target, if a
    jump is taken; [None] as state means that the instruction stalls.

    - [pull(noblock)] on an empty FIFO copies scratch X to the OSR.
    - [pull()] on an empty FIFO stalls.
    - [jmp(y_dec, l)] tests Y before the decrement and decrements Y in
      either case, wrapping from 0 to [2^32 - 1]. *)
Definition exec_op (o : op) (s : sm_state) : option (sm_state * option nat) :=
  match o with
  | pull block =>
      match tx_fifo s with
      | w :: q => Some (set_fifo q (set_reg OSR w s), None)
      | [] => if block then None else Some (set_reg OSR (x s) s, None)
      end
  | mov dst src => Some (set_reg dst (get src s) s, None)
  | jmp x_not_y l =>
      Some (s, if x s =? y s then None else Some l)
  | jmp y_dec l =>
      Some (set_reg Y ((y s - 1) mod WORD) s,
            if y s =? 0 then None else Some l)
  | nop => Some (s, None)
  end.

(** One instruction given from outside ([StateMachine.exec]) or fetched
    from the program: side-set, operation, and the program counter
    moves unless the instruction stalls. *)
Definition exec_instr (i : instr) (s : sm_state) : sm_state :=
  let s1 := apply_side (i_side i) s in
  match exec_op (i_op i) s1 with
  | None => s1
  | Some (s2, Some l) => set_pc l s2
  | Some (s2, None) => set_pc (next_pc (pc s)) s2
  end.

(** One clock cycle of the running state machine. *)
Definition step (s : sm_state) : sm_state :=
  match nth_error pwm_prog (pc s) with
  | Some i => exec_instr i s
  | None => s
  end.

Fixpoint steps (n : nat) (s : sm_state) : sm_state :=
  match n with
  | O => s
  | S n' => steps n' (step s)
  end.

(** [StateMachine.exec]: the instruction is executed at once and the
    program counter stays where it is. *)
Definition exec (i : instr) (s : sm_state) : sm_state :=
  set_pc (pc s) (exec_instr i s).

(** A word enters the FIFO at its end. *)
Definition push (w : Z) (s : sm_state) : sm_state :=
  set_fifo (tx_fifo s ++ [w]) s.

Definition full (s : sm_state) : bool :=
  (TX_DEPTH <=? length (tx_fifo s))%nat.

(** [StateMachine.put]: waits while the FIFO is full, then pushes the
    word.  While it waits, the state machine runs; [fuel] bounds the
    clock cycles waited for, and [None] means the wait is not over. *)
Fixpoint put (fuel : nat) (v : Z) (s : sm_state) : option sm_state :=
  if full s then
    match fuel with
    | O => None
    | S f => put f v (step s)
    end
  else Some (push (to_word v) s).

(** [put], together with the number of clock cycles it has waited. *)
Fixpoint put_count (fuel : nat) (v : Z) (s : sm_state)
  : option (nat * sm_state) :=
  if full s then
    match fuel with
    | O => None
    | S f =>
        match put_count f v (step s) with
        | Some (c, s') => Some (S c, s')
        | None => None
        end
    end
  else Some (O, push (to_word v) s).

(** The state machine after reset, with [sideset_init=PIO.OUT_LOW]:
    the registers are 0, the pin is LOW and the FIFO is empty. *)
Definition reset : sm_state := SM 0 0 0 0 0 false [].

(** *** Observing a period *)

(** What one clock cycle shows: the address of the instruction
    executed, the counter Y it found, and the pin level it leaves. *)
Record event : Type := Event { ev_pc : nat; ev_y : Z; ev_pin : bool }.

Definition observe (s : sm_state) : event :=
  Event (pc s) (y s) (pin (step s)).

(** One period: from the instruction at address 0 until the program
    counter is back at 0.  [None] when [fuel] cycles do not suffice. *)
Fixpoint run_period (fuel : nat) (s : sm_state) : option (list event * sm_state) :=
  match fuel with
  | O => None
  | S f =>
      let s' := step s in
      if (pc s' =? 0)%nat then Some ([observe s], s')
      else match run_period f s' with
           | Some (tr, sf) => Some (observe s :: tr, sf)
           | None => None
           end
  end.

(** [n] periods in a row, each with [fuel] clock cycles at most. *)
Fixpoint run_periods (fuel n : nat) (s : sm_state)
  : option (list (list event) * sm_state) :=
  match n with
  | O => Some ([], s)
  | S n' =>
      match run_period fuel s with
      | Some (tr, s') =>
          match run_periods fuel n' s' with
          | Some (trs, sf) => Some (tr :: trs, sf)
          | None => None
          end
      | None => None
      end
  end.

(** The threshold that the fetch at address 0 will load into X: the
    oldest word in the FIFO, or the old X when the FIFO is empty. *)
Definition next_threshold (s : sm_state) : Z :=
  match tx_fifo s with
  | w :: _ => w
  | [] => x s
  end.

Definition is_high (e : event) : bool := ev_pin e.
Definition is_compare (e : event) : bool := (ev_pc e =? pwmloop)%nat.
Definition is_set_high (e : event) : bool := (ev_pc e =? 4)%nat.

(** Cycles of a trace with the pin HIGH. *)
Definition high_cycles (tr : list event) : nat :=
  length (filter is_high tr).

(** How often the instruction with the HIGH side-set was executed. *)
Definition high_fired (tr : list event) : nat :=
  length (filter is_set_high tr).

(** The counter values at which X was compared with Y, in order. *)
Definition compared (tr : list event) : list Z :=
  map ev_y (filter is_compare tr).

(** The pin level at the end of each phase of a period: the fetch,
    then one phase per counter value, which ends with the decrement. *)
Definition is_phase_end (e : event) : bool :=
  (ev_pc e =? 0)%nat || (ev_pc e =? skip)%nat.

Definition phase_levels (tr : list event) : list bool :=
  map ev_pin (filter is_phase_end tr).

(** The pin level that each comparison of a period sees, one per
    counter value: the comparison has no side-set, so the level it
    leaves is the level it found. *)
Definition compare_levels (tr : list event) : list bool :=
  map ev_pin (filter is_compare tr).

(** [k, k-1, ..., 0]. *)
Fixpoint countdown (k : nat) : list Z :=
  Z.of_nat k :: match k with
                | O => []
                | S k' => countdown k'
                end.

End Pio.

(* ================================================================= *)
(** ** The Python side *)

Module Pwm.

Import Pio.

(** *** Python's [range] *)

(** The number of elements of [range(start, stop, stp)].  A step of 0
    is an error in Python and does not occur in the program; it gives
    the empty range here. *)
Definition range_len (start stop stp : Z) : Z :=
  if 0 <? stp then
    if start <? stop then (stop - start - 1) / stp + 1 else 0
  else if stp <? 0 then
    if stop <? start then (start - stop - 1) / (- stp) + 1 else 0
  else 0.

Definition range3 (start stop stp : Z) : list Z :=
  map (fun k => start + Z.of_nat k * stp)
      (seq 0 (Z.to_nat (range_len start stop stp))).

Definition range (stop : Z) : list Z := range3 0 stop 1.

(** A [for] loop whose body may not return. *)
Fixpoint for_each {A S : Type} (l : list A) (body : A -> S -> option S) (s : S)
  : option S :=
  match l with
  | [] => Some s
  | a :: l' =>
      match body a s with
      | Some s' => for_each l' body s'
      | None => None
      end
  end.

(** *** class PIOPWM *)

Record PIOPWM : Type := Build_PIOPWM
  { _sm : sm_state
  ; _max_count : Z
  }.

(** [PIOPWM.__init__].  The state machine is created in its reset
    state and does not run before [active(1)], the last statement: the
    [put] gets no clock cycle to wait for.  The identifier of the state
    machine, the pin number and the clock frequency select hardware and
    do not enter the state. *)
Definition __init__ (sm_id pin_no max_count count_freq : Z) : option PIOPWM :=
  match put 0 max_count reset with
  | Some s0 =>
      let s1 := exec (plain (pull true)) s0 in
      let s2 := exec (plain (mov ISR OSR)) s1 in
      Some (Build_PIOPWM s2 max_count)
  | None => None
  end.

(** The two clamping statements of [PIOPWM.set]. *)
Definition clamp (max_count value : Z) : Z :=
  let value := Z.max value (-1) in
  let value := Z.min value max_count in
  value.

(** [PIOPWM.set].  [fuel] bounds the clock cycles that [put] waits
    for room in the FIFO. *)
Definition set (fuel : nat) (value : Z) (self : PIOPWM) : option PIOPWM :=
  match put fuel (clamp (_max_count self) value) (_sm self) with
  | Some s => Some (Build_PIOPWM s (_max_count self))
  | None => None
  end.

(** *** The timer callback *)

Section Tick.

Context {S : Type}.

(** What [pwm.set] is bound to when the callback runs. *)
Variable pwm_set : Z -> S -> option S.

Definition tick_body (pwm : S) : option S :=
  (* Fade in *)
  match for_each (range 256) (fun i => pwm_set (i ^ 2)) pwm with
  | Some pwm' =>
      (* Fade out *)
      for_each (range3 256 (-1) (-1)) (fun i => pwm_set (i ^ 2)) pwm'
  | None => None
  end.

End Tick.

(** [tick], with the module's [pwm]. *)
Definition tick (fuel : nat) (pwm : PIOPWM) : option PIOPWM :=
  tick_body (set fuel) pwm.

(** [PIOPWM.set] on a channel paired with the clock cycles waited so
    far. *)
Definition set_count (fuel : nat) (value : Z) (cs : nat * PIOPWM)
  : option (nat * PIOPWM) :=
  let self := snd cs in
  match put_count fuel (clamp (_max_count self) value) (_sm self) with
  | Some (c, s) => Some ((fst cs + c)%nat, Build_PIOPWM s (_max_count self))
  | None => None
  end.

(** [tick], with the clock cycles that its calls of [set] wait. *)
Definition tick_count (fuel : nat) (pwm : PIOPWM) : option (nat * PIOPWM) :=
  tick_body (set_count fuel) (O, pwm).

(** [pwm.set] replaced by a recorder: the log of the values passed. *)
Definition record_call (v : Z) (log : list Z) : option (list Z) :=
  Some (log ++ [v]).

Definition tick_calls : list Z :=
  match tick_body record_call [] with
  | Some log => log
  | None => []
  end.

(** The program's channel: [PIOPWM(0, 25, max_count=(1 << 16) - 1,
    count_freq=10_000_000)]. *)
Definition MAX_COUNT : Z := Z.shiftl 1 16 - 1.

Definition pwm : option PIOPWM := __init__ 0 25 MAX_COUNT 10000000.

(** *** The controller and the state machine side by side *)

(** The words that one run of [tick] hands to [StateMachine.put], in
    order, for a channel with period register [max_count]. *)
Definition fade_words (max_count : Z) : list Z :=
  map (fun v => to_word (clamp max_count v)) tick_calls.

(** The state machine executes an instruction, or the controller puts
    a word into a FIFO that has room.  [may_put] says which words the
    controller puts. *)
Inductive sys_step (may_put : Z -> Prop) : sm_state -> sm_state -> Prop :=
| sys_clock : forall s, sys_step may_put s (step s)
| sys_put : forall s w,
    full s = false -> may_put w -> sys_step may_put s (push w s).

Inductive reachable (may_put : Z -> Prop) (s0 : sm_state) : sm_state -> Prop :=
| reach_init : reachable may_put s0 s0
| reach_step : forall s s',
    reachable may_put s0 s -> sys_step may_put s s' -> reachable may_put s0 s'.

(** The words that [set] puts on a channel with [_max_count = max_count]. *)
Definition set_word (max_count w : Z) : Prop :=
  exists v : Z, w = to_word (clamp max_count v).

(** The clock of the state machine, [freq=2*count_freq] in [__init__],
    for the program's [count_freq=10_000_000], in cycles per second. *)
Definition SM_FREQ : Z := 2 * 10000000.

(** The timer calls [tick] every 4 seconds ([freq=0.25]); in clock
    cycles of the state machine: *)
Definition TIMER_PERIOD_CYCLES : Z := 4 * SM_FREQ.

(** Any caller of [set]: any Python integer, truncated to a word. *)
Definition any_word (w : Z) : Prop := exists v : Z, w = to_word v.

(** The fade driver as the only caller of [set]. *)
Definition fade_word (max_count w : Z) : Prop := In w (fade_words max_count).

End Pwm.

(* ================================================================= *)
(** ** The shape of a period *)

Module Period.

Import Pio.

(** The events of the inner loop entered with counter [k], threshold
    [thr] and pin level [p]: per counter value the comparison, the
    HIGH side-set when the two are equal, and the decrement. *)
Fixpoint loop_events (thr : Z) (p : bool) (k : nat) : list event :=
  let c := Z.of_nat k in
  let hit := thr =? c in
  let p' := p || hit in
  Event pwmloop c p
    :: (if hit then [Event 4 c true] else [])
    ++ Event skip c p'
    :: match k with
       | O => []
       | S k' => loop_events thr p' k'
       end.

(** The pin level the inner loop leaves. *)
Fixpoint loop_pin (thr : Z) (p : bool) (k : nat) : bool :=
  let p' := p || (thr =? Z.of_nat k) in
  match k with
  | O => p'
  | S k' => loop_pin thr p' k'
  end.

(** The events of a whole period that starts with counter [y0] left
    over from the period before, loads threshold [thr] and reloads the
    counter with [k]. *)
Definition period_events (y0 thr : Z) (k : nat) : list event :=
  Event 0 y0 false :: Event 1 y0 false :: Event 2 y0 false
    :: loop_events thr false k.

(** The state in which the period starting in [s] ends. *)
Definition period_end (s : sm_state) : sm_state :=
  let thr := next_threshold s in
  SM 0 thr (WORD - 1) thr (isr s)
     (loop_pin thr false (Z.to_nat (isr s))) (tl (tx_fifo s)).

(** A state of the running machine: the program counter is inside the
    program, the counter registers hold words, and the FIFO holds no
    more words than it has room for. *)
Definition wf (s : sm_state) : Prop :=
  (pc s < length pwm_prog)%nat
  /\ 0 <= y s < WORD
  /\ 0 <= isr s < WORD
  /\ (length (tx_fifo s) <= TX_DEPTH)%nat.

(** The cycles of one period with the pin HIGH, for a period register
    [max_count] and a threshold [thr] waiting in X with the FIFO
    empty. *)
Definition period_of (max_count thr : Z) : option (list event * sm_state) :=
  run_period (Z.to_nat (3 * max_count + 6))
             (SM 0 thr 0 thr max_count false []).

Definition high_per_period (max_count thr : Z) : nat :=
  match period_of max_count thr with
  | Some (tr, _) => high_cycles tr
  | None => 0
  end.

Definition cycles_per_period (max_count thr : Z) : nat :=
  match period_of max_count thr with
  | Some (tr, _) => length tr
  | None => 0
  end.

(** [put] of [v] returns from [s] after some clock cycles and leaves
    the words [F] and then [v] in the FIFO. *)
Definition returns_with (v : Z) (F : list Z) (s : sm_state) : Prop :=
  exists (n : nat) (s' : sm_state),
    (forall fuel, (n <= fuel)%nat -> put fuel v s = Some s')
    /\ tx_fifo s' = F ++ [to_word v].

(** The clock cycles per period with the pin HIGH, for period register
    [max_count] and threshold [thr]. *)
Definition duty_cycles (max_count thr : Z) : nat :=
  if (0 <=? thr) && (thr <=? max_count) then Z.to_nat (2 * thr + 2) else 0.

(** The same for a value passed to [set]: off below 0, and else
    two clock cycles for each counter value from the clamped value
    down to 0. *)
Definition duty_of_request (max_count value : Z) : nat :=
  if value <? 0 then 0 else Z.to_nat (2 * Z.min value max_count + 2).

(** A threshold that [set] can have put: the off sentinel or a counter
    value. *)
Definition threshold_ok (max_count w : Z) : Prop :=
  w = WORD - 1 \/ 0 <= w <= max_count.

(** The threshold of the [j]-th period from [s] on when nothing more is
    put: the [j]-th pending word, and when the FIFO is used up the last
    one, or the old X if there was none. *)
Definition threshold_at (s : sm_state) (j : nat) : Z :=
  nth j (tx_fifo s) (last (tx_fifo s) (x s)).

(** What holds of the running machine besides [wf]: in the inner loop
    the counter is at most the period register, and the instruction
    with the HIGH side-set is reached with X equal to Y only. *)
Definition in_period (s : sm_state) : Prop :=
  wf s
  /\ ((3 <= pc s)%nat -> y s <= isr s)
  /\ (pc s = 4%nat -> x s = y s).

(** [put] of [v] returns from [s] after at most [N] clock cycles of
    waiting. *)
Definition returns_within (N : nat) (v : Z) (s : sm_state) : Prop :=
  exists c : nat,
    (c <= N)%nat
    /\ forall fuel, (c <= fuel)%nat ->
         put_count fuel v s = Some (c, push (to_word v) (steps c s)).

Definition phases_per_period (max_count thr : Z) : list bool :=
  match period_of max_count thr with
  | Some (tr, _) => phase_levels tr
  | None => []
  end.

Definition compared_per_period (max_count thr : Z) : list Z :=
  match period_of max_count thr with
  | Some (tr, _) => compared tr
  | None => []
  end.

Definition fired_per_period (max_count thr : Z) : nat :=
  match period_of max_count thr with
  | Some (tr, _) => high_fired tr
  | None => 0
  end.

End Period.

(* ================================================================= *)
(** ** Facts about single instructions *)

Module StepFacts.

Import Pio Period.

Lemma WORD_val : WORD = 4294967296.
Proof. reflexivity. Qed.

Lemma step_fetch_empty xv yv o i p :
  step (SM 0 xv yv o i p []) = SM 1 xv yv xv i false [].
Proof. reflexivity. Qed.

Lemma step_fetch_word xv yv o i p w q :
  step (SM 0 xv yv o i p (w :: q)) = SM 1 xv yv w i false q.
Proof. reflexivity. Qed.

Lemma step_load_x xv yv o i p q :
  step (SM 1 xv yv o i p q) = SM 2 o yv o i p q.
Proof. reflexivity. Qed.

Lemma step_load_y xv yv o i p q :
  step (SM 2 xv yv o i p q) = SM 3 xv i o i p q.
Proof. reflexivity. Qed.

Lemma step_compare xv yv o i p q :
  step (SM 3 xv yv o i p q) = SM (if xv =? yv then 4%nat else 5%nat) xv yv o i p q.
Proof.
  unfold step, exec_instr; simpl.
  destruct (xv =? yv); reflexivity.
Qed.

Lemma step_set_high xv yv o i p q :
  step (SM 4 xv yv o i p q) = SM 5 xv yv o i true q.
Proof. reflexivity. Qed.

Lemma step_decrement xv yv o i p q :
  step (SM 5 xv yv o i p q) =
  SM (if yv =? 0 then 0%nat else 3%nat) xv ((yv - 1) mod WORD) o i p q.
Proof.
  unfold step, exec_instr; simpl.
  destruct (yv =? 0); reflexivity.
Qed.

Lemma run_period_eq fuel s :
  run_period (S fuel) s =
  if (pc (step s) =? 0)%nat then Some ([observe s], step s)
  else match run_period fuel (step s) with
       | Some (tr, sf) => Some (observe s :: tr, sf)
       | None => None
       end.
Proof. reflexivity. Qed.

Lemma observe_compare xv yv o i p q :
  observe (SM 3 xv yv o i p q) = Event pwmloop yv p.
Proof. unfold observe. rewrite step_compare. reflexivity. Qed.

Lemma observe_set_high xv yv o i p q :
  observe (SM 4 xv yv o i p q) = Event 4 yv true.
Proof. reflexivity. Qed.

Lemma observe_decrement xv yv o i p q :
  observe (SM 5 xv yv o i p q) = Event skip yv p.
Proof. unfold observe. rewrite step_decrement. reflexivity. Qed.

(** One turn of the inner loop when the counter is not yet 0. *)
Lemma run_turn thr c o i p q fuel :
  c <> 0 ->
  run_period (S (S (S fuel))) (SM 3 thr c o i p q) =
  if thr =? c then
    match run_period fuel (SM 3 thr ((c - 1) mod WORD) o i true q) with
    | Some (tr, sf) =>
        Some (Event pwmloop c p :: Event 4 c true :: Event skip c true :: tr, sf)
    | None => None
    end
  else
    match run_period (S fuel) (SM 3 thr ((c - 1) mod WORD) o i p q) with
    | Some (tr, sf) => Some (Event pwmloop c p :: Event skip c p :: tr, sf)
    | None => None
    end.
Proof.
  intros Hc. apply Z.eqb_neq in Hc.
  rewrite run_period_eq, observe_compare, step_compare.
  destruct (thr =? c).
  - cbn [pc Nat.eqb].
    rewrite run_period_eq, observe_set_high, step_set_high. cbn [pc Nat.eqb].
    rewrite run_period_eq, observe_decrement, step_decrement, Hc.
    cbn [pc Nat.eqb].
    destruct (run_period fuel _) as [[tr sf]|]; reflexivity.
  - cbn [pc Nat.eqb].
    rewrite run_period_eq, observe_decrement, step_decrement, Hc.
    cbn [pc Nat.eqb].
    destruct (run_period (S fuel) _) as [[tr sf]|]; reflexivity.
Qed.

(** The last turn, with the counter at 0. *)
Lemma run_last_turn thr o i p q fuel :
  run_period (S (S (S fuel))) (SM 3 thr 0 o i p q) =
  if thr =? 0 then
    Some ([Event pwmloop 0 p; Event 4 0 true; Event skip 0 true],
          SM 0 thr (WORD - 1) o i true q)
  else
    Some ([Event pwmloop 0 p; Event skip 0 p], SM 0 thr (WORD - 1) o i p q).
Proof.
  rewrite run_period_eq, observe_compare, step_compare.
  destruct (thr =? 0).
  - cbn [pc Nat.eqb].
    rewrite run_period_eq, observe_set_high, step_set_high. cbn [pc Nat.eqb].
    rewrite run_period_eq, observe_decrement, step_decrement. reflexivity.
  - cbn [pc Nat.eqb].
    rewrite run_period_eq, observe_decrement, step_decrement. reflexivity.
Qed.

(** The inner loop, entered at [pwmloop] with counter [k], runs to the
    end of the period and shows [loop_events]. *)
Lemma run_loop thr o i q : forall (k : nat) (p : bool) (fuel : nat),
  Z.of_nat k < WORD ->
  (3 * (k + 1) <= fuel)%nat ->
  run_period fuel (SM 3 thr (Z.of_nat k) o i p q) =
  Some (loop_events thr p k, SM 0 thr (WORD - 1) o i (loop_pin thr p k) q).
Proof.
  induction k as [|k IH]; intros p fuel Hk Hfuel.
  - destruct fuel as [|[|[|fuel]]]; try lia.
    change (Z.of_nat 0) with 0. rewrite run_last_turn.
    cbn [loop_events loop_pin Z.of_nat].
    destruct (thr =? 0).
    + rewrite orb_true_r. reflexivity.
    + rewrite orb_false_r. reflexivity.
  - assert (Hdec : (Z.of_nat (S k) - 1) mod WORD = Z.of_nat k)
      by (rewrite Z.mod_small; lia).
    destruct fuel as [|[|[|fuel]]]; try lia.
    rewrite run_turn by lia. rewrite Hdec.
    cbn [loop_events loop_pin].
    destruct (thr =? Z.of_nat (S k)).
    + rewrite orb_true_r, (IH true fuel) by lia. reflexivity.
    + rewrite orb_false_r, (IH p (S fuel)) by lia. reflexivity.
Qed.

End StepFacts.

(* ================================================================= *)
(** ** Facts about a whole period *)

Module PeriodFacts.

Import Pio Period StepFacts.

(** A period from address 0: fetch, the two loads, the inner loop. *)
Lemma run_whole_period (s : sm_state) (fuel : nat) :
  pc s = 0%nat ->
  0 <= isr s < WORD ->
  (3 * Z.to_nat (isr s) + 6 <= fuel)%nat ->
  run_period fuel s =
  Some (period_events (y s) (next_threshold s) (Z.to_nat (isr s)), period_end s).
Proof.
  destruct s as [n xv yv o i p q]. cbn [pc isr y]. intros -> Hi Hfuel.
  destruct fuel as [|[|[|fuel]]]; try lia.
  assert (Hrun : forall w q',
    run_period (S (S fuel)) (SM 1 xv yv w i false q') =
    Some (Event 1 yv false :: Event 2 yv false
            :: loop_events w false (Z.to_nat i),
          SM 0 w (WORD - 1) w i (loop_pin w false (Z.to_nat i)) q')).
  { intros w q'.
    rewrite run_period_eq, step_load_x. cbn [pc Nat.eqb].
    rewrite run_period_eq, step_load_y. cbn [pc Nat.eqb].
    rewrite <- (Z2Nat.id i) at 1 by lia.
    rewrite run_loop by (rewrite ?Z2Nat.id; lia).
    reflexivity. }
  unfold period_events, period_end, next_threshold. cbn [tx_fifo x isr].
  rewrite run_period_eq.
  destruct q as [|w q].
  - rewrite step_fetch_empty. cbn [pc Nat.eqb]. rewrite Hrun. reflexivity.
  - rewrite step_fetch_word. cbn [pc Nat.eqb]. rewrite Hrun. reflexivity.
Qed.

(** *** Counting in the inner loop *)

Lemma fired_none thr : forall k p,
  thr < 0 \/ Z.of_nat k < thr ->
  high_fired (loop_events thr p k) = 0%nat.
Proof.
  induction k as [|k IH]; intros p H; cbn [loop_events].
  - replace (thr =? Z.of_nat 0) with false by (symmetry; apply Z.eqb_neq; lia).
    reflexivity.
  - replace (thr =? Z.of_nat (S k)) with false
      by (symmetry; apply Z.eqb_neq; lia).
    rewrite orb_false_r. unfold high_fired in *. cbn. apply IH. lia.
Qed.

Lemma fired_once thr : forall k p,
  0 <= thr <= Z.of_nat k ->
  high_fired (loop_events thr p k) = 1%nat.
Proof.
  induction k as [|k IH]; intros p H; cbn [loop_events].
  - replace (thr =? Z.of_nat 0) with true by (symmetry; apply Z.eqb_eq; lia).
    reflexivity.
  - destruct (thr =? Z.of_nat (S k)) eqn:E.
    + apply Z.eqb_eq in E.
      pose proof (fired_none thr k (p || true)) as Hn.
      unfold high_fired in *. cbn. rewrite Hn by lia. reflexivity.
    + apply Z.eqb_neq in E. unfold high_fired in *. cbn. apply IH. lia.
Qed.

Lemma loop_length thr : forall k p,
  length (loop_events thr p k) =
  (2 * (k + 1) + high_fired (loop_events thr p k))%nat.
Proof.
  induction k as [|k IH]; intros p; cbn [loop_events].
  - destruct (thr =? Z.of_nat 0); reflexivity.
  - unfold high_fired in *.
    destruct (thr =? Z.of_nat (S k)); cbn; rewrite IH; lia.
Qed.

Lemma loop_all_high thr : forall k,
  Forall (fun e => ev_pin e = true) (loop_events thr true k).
Proof.
  induction k as [|k IH]; cbn [loop_events orb].
  - destruct (thr =? Z.of_nat 0); repeat constructor.
  - destruct (thr =? Z.of_nat (S k)); repeat constructor; exact IH.
Qed.

Lemma loop_all_low thr : forall k,
  thr < 0 \/ Z.of_nat k < thr ->
  Forall (fun e => ev_pin e = false /\ ev_pc e <> 4%nat)
         (loop_events thr false k).
Proof.
  induction k as [|k IH]; intros H; cbn [loop_events orb].
  - replace (thr =? Z.of_nat 0) with false by (symmetry; apply Z.eqb_neq; lia).
    repeat constructor; cbn; discriminate.
  - replace (thr =? Z.of_nat (S k)) with false
      by (symmetry; apply Z.eqb_neq; lia).
    repeat constructor; cbn; try discriminate. apply IH. lia.
Qed.

Lemma high_cycles_all (tr : list event) :
  Forall (fun e => ev_pin e = true) tr -> high_cycles tr = length tr.
Proof.
  unfold high_cycles. induction 1 as [|e tr He _ IH]; [reflexivity|].
  cbn. unfold is_high at 1. rewrite He. cbn. now rewrite IH.
Qed.

Lemma high_cycles_none (tr : list event) :
  Forall (fun e => ev_pin e = false) tr -> high_cycles tr = 0%nat.
Proof.
  unfold high_cycles. induction 1 as [|e tr He _ IH]; [reflexivity|].
  cbn. unfold is_high at 1. now rewrite He.
Qed.

(** With the pin LOW on entry and the threshold among the counter
    values, the pin is HIGH for two cycles per counter value from the
    threshold down to 0. *)
Lemma loop_high_cycles thr : forall k,
  0 <= thr <= Z.of_nat k ->
  high_cycles (loop_events thr false k) = (2 * Z.to_nat thr + 2)%nat.
Proof.
  induction k as [|k IH]; intros H; cbn [loop_events orb].
  - replace (thr =? Z.of_nat 0) with true by (symmetry; apply Z.eqb_eq; lia).
    replace thr with 0 by lia. reflexivity.
  - destruct (thr =? Z.of_nat (S k)) eqn:E.
    + apply Z.eqb_eq in E.
      pose proof (high_cycles_all _ (loop_all_high thr k)) as Ha.
      rewrite loop_length, fired_none in Ha by lia.
      unfold high_cycles in *. cbn. rewrite Ha. lia.
    + apply Z.eqb_neq in E. unfold high_cycles in *. cbn. apply IH. lia.
Qed.

(** The comparison is made once per counter value, from the reload
    value down to 0. *)
Lemma loop_compared thr : forall k p,
  compared (loop_events thr p k) = countdown k.
Proof.
  induction k as [|k IH]; intros p; cbn [loop_events].
  - destruct (thr =? Z.of_nat 0); reflexivity.
  - unfold compared in *.
    destruct (thr =? Z.of_nat (S k)); cbn; now rewrite IH.
Qed.

Lemma countdown_length k : length (countdown k) = S k.
Proof. induction k as [|k IH]; [reflexivity|]. cbn. now rewrite IH. Qed.

Lemma countdown_In k : forall c, In c (countdown k) <-> 0 <= c <= Z.of_nat k.
Proof.
  induction k as [|k IH]; intros c.
  - cbn. lia.
  - cbn [countdown In]. rewrite IH. lia.
Qed.

Lemma loop_pin_none thr : forall k p,
  thr < 0 \/ Z.of_nat k < thr -> loop_pin thr p k = p.
Proof.
  induction k as [|k IH]; intros p H; cbn [loop_pin].
  - replace (thr =? Z.of_nat 0) with false by (symmetry; apply Z.eqb_neq; lia).
    apply orb_false_r.
  - replace (thr =? Z.of_nat (S k)) with false
      by (symmetry; apply Z.eqb_neq; lia).
    rewrite orb_false_r. apply IH. lia.
Qed.

Lemma loop_pin_hit thr : forall k p,
  0 <= thr <= Z.of_nat k -> loop_pin thr p k = true.
Proof.
  induction k as [|k IH]; intros p H; cbn [loop_pin].
  - replace (thr =? Z.of_nat 0) with true by (symmetry; apply Z.eqb_eq; lia).
    apply orb_true_r.
  - destruct (thr =? Z.of_nat (S k)) eqn:E.
    + apply Z.eqb_eq in E. rewrite orb_true_r. apply loop_pin_none. lia.
    + apply Z.eqb_neq in E. apply IH. lia.
Qed.

(** The pin level at the end of the phases of the inner loop. *)
Lemma loop_phase_levels_high thr : forall k,
  phase_levels (loop_events thr true k) = repeat true (S k).
Proof.
  induction k as [|k IH]; cbn [loop_events orb].
  - destruct (thr =? Z.of_nat 0); reflexivity.
  - unfold phase_levels in *.
    destruct (thr =? Z.of_nat (S k)); cbn; now rewrite IH.
Qed.

(** *** The three instructions before the loop add nothing but cycles *)

Lemma period_compared y0 thr k :
  compared (period_events y0 thr k) = countdown k.
Proof. unfold period_events, compared. cbn. apply loop_compared. Qed.

Lemma period_fired y0 thr k :
  high_fired (period_events y0 thr k) = high_fired (loop_events thr false k).
Proof. reflexivity. Qed.

Lemma period_high_cycles y0 thr k :
  high_cycles (period_events y0 thr k) = high_cycles (loop_events thr false k).
Proof. reflexivity. Qed.

Lemma period_length y0 thr k :
  length (period_events y0 thr k) =
  (2 * k + 5 + high_fired (loop_events thr false k))%nat.
Proof. unfold period_events. cbn [length]. rewrite loop_length. lia. Qed.

Lemma period_of_eq max_count thr :
  0 <= max_count < WORD ->
  period_of max_count thr =
  Some (period_events 0 thr (Z.to_nat max_count),
        period_end (SM 0 thr 0 thr max_count false [])).
Proof.
  intros H. unfold period_of.
  rewrite run_whole_period; cbn [pc isr y]; try lia.
  reflexivity.
Qed.

Lemma MAX_COUNT_val : Pwm.MAX_COUNT = 65535.
Proof. reflexivity. Qed.

Lemma minus_one_word : to_word (-1) = WORD - 1.
Proof. reflexivity. Qed.

End PeriodFacts.

(* ================================================================= *)
(** ** Facts about the running system *)

Module SystemFacts.

Import Pio Pwm Period StepFacts PeriodFacts.

(** The six addresses of the program. *)
Lemma pc_cases (n : nat) :
  (n < length pwm_prog)%nat ->
  n = 0%nat \/ n = 1%nat \/ n = 2%nat \/ n = 3%nat \/ n = 4%nat \/ n = 5%nat.
Proof. cbn [length pwm_prog]. lia. Qed.

(** A clock cycle keeps the state well-formed and the period register
    as it is. *)
Lemma step_wf (s : sm_state) : wf s -> wf (step s) /\ isr (step s) = isr s.
Proof.
  destruct s as [n xv yv o i p q]. unfold wf. cbn [pc y isr tx_fifo].
  intros (Hpc & Hy & Hi & Hq).
  assert (Hmod : 0 <= (yv - 1) mod WORD < WORD)
    by (apply Z.mod_pos_bound; rewrite WORD_val; lia).
  destruct (pc_cases n Hpc) as [->|[->|[->|[->|[->| ->]]]]].
  - destruct q as [|w q].
    + rewrite step_fetch_empty. cbn [pc y isr tx_fifo length pwm_prog] in *.
      repeat split; lia.
    + rewrite step_fetch_word. cbn [pc y isr tx_fifo length pwm_prog] in *.
      repeat split; lia.
  - rewrite step_load_x. cbn [pc y isr tx_fifo length pwm_prog] in *.
    repeat split; lia.
  - rewrite step_load_y. cbn [pc y isr tx_fifo length pwm_prog] in *.
    repeat split; lia.
  - rewrite step_compare. cbn [pc y isr tx_fifo length pwm_prog] in *.
    destruct (xv =? yv); repeat split; lia.
  - rewrite step_set_high. cbn [pc y isr tx_fifo length pwm_prog] in *.
    repeat split; lia.
  - rewrite step_decrement. cbn [pc y isr tx_fifo length pwm_prog] in *.
    destruct (yv =? 0); repeat split; lia.
Qed.

Lemma full_false_length (s : sm_state) :
  full s = false <-> (length (tx_fifo s) < TX_DEPTH)%nat.
Proof. unfold full. rewrite Nat.leb_gt. reflexivity. Qed.

Lemma full_true_length (s : sm_state) :
  full s = true <-> (TX_DEPTH <= length (tx_fifo s))%nat.
Proof. unfold full. rewrite Nat.leb_le. reflexivity. Qed.

(** A put into a FIFO with room keeps the state well-formed. *)
Lemma push_wf (w : Z) (s : sm_state) :
  full s = false -> wf s -> wf (push w s) /\ isr (push w s) = isr s.
Proof.
  rewrite full_false_length. destruct s as [n xv yv o i p q].
  unfold wf, push, set_fifo. cbn [pc y isr tx_fifo].
  intros Hroom (Hpc & Hy & Hi & Hq).
  rewrite length_app. cbn [length]. repeat split; lia.
Qed.

(** Every state the system reaches is well-formed. *)
Lemma reachable_wf (may_put : Z -> Prop) (s0 s : sm_state) :
  wf s0 -> reachable may_put s0 s -> wf s /\ isr s = isr s0.
Proof.
  intros H0. induction 1 as [|s s' _ [IHwf IHisr] Hstep].
  - split; [exact H0|reflexivity].
  - destruct Hstep as [s|s w Hroom _].
    + destruct (step_wf s IHwf) as [Hwf Hisr]. split; [exact Hwf|congruence].
    + destruct (push_wf w s Hroom IHwf) as [Hwf Hisr].
      split; [exact Hwf|congruence].
Qed.

(** The state machine running on its own for [n] clock cycles. *)
Lemma reachable_steps (may_put : Z -> Prop) (s0 : sm_state) :
  forall (n : nat) (s : sm_state),
    reachable may_put s0 s -> reachable may_put s0 (steps n s).
Proof.
  induction n as [|n IH]; intros s H; cbn [steps]; [exact H|].
  apply IH. eapply reach_step; [exact H|apply sys_clock].
Qed.

(** The channel as [__init__] leaves it. *)
Lemma init_state (sm_id pin_no max_count count_freq : Z) :
  __init__ sm_id pin_no max_count count_freq =
  Some (Build_PIOPWM
          (SM 0 0 0 (to_word max_count) (to_word max_count) false [])
          max_count).
Proof. reflexivity. Qed.

Lemma to_word_range (v : Z) : 0 <= to_word v < WORD.
Proof. apply Z.mod_pos_bound. rewrite WORD_val. lia. Qed.

Lemma to_word_small (v : Z) : 0 <= v < WORD -> to_word v = v.
Proof. apply Z.mod_small. Qed.

Lemma init_wf (sm_id pin_no max_count count_freq : Z) (p : PIOPWM) :
  __init__ sm_id pin_no max_count count_freq = Some p ->
  wf (_sm p) /\ pc (_sm p) = 0%nat /\ isr (_sm p) = to_word max_count
  /\ pin (_sm p) = false /\ tx_fifo (_sm p) = [] /\ _max_count p = max_count.
Proof.
  rewrite init_state. intros [= <-]. cbn [_sm _max_count].
  pose proof (to_word_range max_count) as Hw.
  unfold wf. cbn [pc y isr tx_fifo pin length pwm_prog TX_DEPTH].
  rewrite WORD_val in *. repeat split; lia.
Qed.

(** *** Waiting for room in the FIFO *)

(** If the wait is over some cycles after the next one, it is over
    some cycles from now. *)
Lemma wait_one (v : Z) (s : sm_state) (Q : sm_state -> Prop) :
  full s = true ->
  (exists n s', (forall fuel, (n <= fuel)%nat -> put fuel v (step s) = Some s')
                /\ Q s') ->
  exists n s', (forall fuel, (n <= fuel)%nat -> put fuel v s = Some s') /\ Q s'.
Proof.
  intros Hfull (n & s' & Hput & HQ).
  exists (S n), s'. split; [|exact HQ].
  intros [|fuel] Hfuel; [lia|].
  cbn [put]. rewrite Hfull. apply Hput. lia.
Qed.

Section Wait.

Variables (v i w : Z) (F : list Z).
Hypothesis HF : length (w :: F) = TX_DEPTH.

Lemma is_full n xv' yv o' p : full (SM n xv' yv o' i p (w :: F)) = true.
Proof. apply full_true_length. cbn [tx_fifo]. rewrite HF. lia. Qed.

(** The fetch takes the oldest word; then there is room. *)
Lemma wait_at_fetch xv' yv o' p : returns_with v F (SM 0 xv' yv o' i p (w :: F)).
Proof.
  apply wait_one; [apply is_full|].
  rewrite step_fetch_word.
  exists 0%nat, (push (to_word v) (SM 1 xv' yv w i false F)).
  split; [|reflexivity].
  intros fuel _.
  assert (Hroom : full (SM 1 xv' yv w i false F) = false).
  { apply full_false_length. cbn [tx_fifo length] in *. lia. }
  destruct fuel; cbn [put]; rewrite Hroom; reflexivity.
Qed.

(** From the decrement, by induction on the counter. *)
Lemma wait_at_decrement : forall (k : nat) xv' o' p,
  Z.of_nat k < WORD -> returns_with v F (SM 5 xv' (Z.of_nat k) o' i p (w :: F)).
Proof.
  induction k as [|k IH]; intros xv' o' p Hk.
  - apply wait_one; [apply is_full|].
    rewrite step_decrement. cbn [Z.of_nat Z.eqb]. apply wait_at_fetch.
  - apply wait_one; [apply is_full|].
    rewrite step_decrement.
    replace (Z.of_nat (S k) =? 0) with false
      by (symmetry; apply Z.eqb_neq; lia).
    replace ((Z.of_nat (S k) - 1) mod WORD) with (Z.of_nat k)
      by (rewrite Z.mod_small; lia).
    apply wait_one; [apply is_full|].
    rewrite step_compare.
    destruct (xv' =? Z.of_nat k).
    + apply wait_one; [apply is_full|].
      rewrite step_set_high. apply IH. lia.
    + apply IH. lia.
Qed.

Lemma wait_at_compare (k : nat) xv' o' p :
  Z.of_nat k < WORD -> returns_with v F (SM 3 xv' (Z.of_nat k) o' i p (w :: F)).
Proof.
  intros Hk. apply wait_one; [apply is_full|].
  rewrite step_compare.
  destruct (xv' =? Z.of_nat k).
  - apply wait_one; [apply is_full|].
    rewrite step_set_high. now apply wait_at_decrement.
  - now apply wait_at_decrement.
Qed.

(** From every address of the program. *)
Lemma wait_anywhere (n : nat) xv' yv o' p :
  wf (SM n xv' yv o' i p (w :: F)) -> returns_with v F (SM n xv' yv o' i p (w :: F)).
Proof.
  unfold wf. cbn [pc y isr tx_fifo]. intros (Hpc & Hy & Hi & _).
  assert (Hload : forall a b c, returns_with v F (SM 3 a i b i c (w :: F))).
  { intros a b c. pose proof (wait_at_compare (Z.to_nat i) a b c) as H.
    rewrite Z2Nat.id in H by lia. apply H. lia. }
  assert (Hcmp : forall a b c, returns_with v F (SM 3 a yv b i c (w :: F))).
  { intros a b c. pose proof (wait_at_compare (Z.to_nat yv) a b c) as H.
    rewrite Z2Nat.id in H by lia. apply H. lia. }
  assert (Hdec : forall a b c, returns_with v F (SM 5 a yv b i c (w :: F))).
  { intros a b c. pose proof (wait_at_decrement (Z.to_nat yv) a b c) as H.
    rewrite Z2Nat.id in H by lia. apply H. lia. }
  destruct (pc_cases n Hpc) as [->|[->|[->|[->|[->| ->]]]]].
  - apply wait_at_fetch.
  - apply wait_one; [apply is_full|]. rewrite step_load_x.
    apply wait_one; [apply is_full|]. rewrite step_load_y.
    apply Hload.
  - apply wait_one; [apply is_full|]. rewrite step_load_y.
    apply Hload.
  - apply Hcmp.
  - apply wait_one; [apply is_full|]. rewrite step_set_high.
    apply Hdec.
  - apply Hdec.
Qed.

End Wait.

(** [put] keeps the state well-formed. *)
Lemma put_wf (v : Z) : forall (fuel : nat) (s s' : sm_state),
  wf s -> put fuel v s = Some s' -> wf s' /\ isr s' = isr s.
Proof.
  induction fuel as [|fuel IH]; intros s s' Hwf; cbn [put];
    destruct (full s) eqn:Hfull; try discriminate.
  - intros [= <-]. now apply push_wf.
  - intros Hput. destruct (step_wf s Hwf) as [Hwf' Hisr].
    destruct (IH _ _ Hwf' Hput) as [Hwf'' Hisr']. split; [trivial|congruence].
  - intros [= <-]. now apply push_wf.
Qed.

(** [put] returns, from every well-formed state: at once when the FIFO
    has room, and else after the next fetch has taken the oldest
    word. *)
Lemma put_returns (v : Z) (s : sm_state) :
  wf s ->
  exists n s',
    (forall fuel, (n <= fuel)%nat -> put fuel v s = Some s')
    /\ tx_fifo s' =
       (if full s then tl (tx_fifo s) else tx_fifo s) ++ [to_word v].
Proof.
  intros Hwf. destruct (full s) eqn:Hfull.
  - destruct s as [n xv yv o i p q].
    assert (Hlen : length q = TX_DEPTH).
    { apply full_true_length in Hfull. destruct Hwf as (_ & _ & _ & Hq).
      cbn [tx_fifo] in *. lia. }
    destruct q as [|w F]; [discriminate|].
    cbn [tl tx_fifo]. now apply wait_anywhere.
  - exists 0%nat, (push (to_word v) s). split; [|reflexivity].
    intros fuel _. destruct fuel; cbn [put]; rewrite Hfull; reflexivity.
Qed.

End SystemFacts.

(* ================================================================= *)
(** ** Properties of the controller and of the fade driver *)

Import Pio Pwm Period StepFacts PeriodFacts SystemFacts.

(** C4. For every integer [v], the clamping of [PIOPWM.set] yields a
    value in the inclusive range from -1 to [max_count]: a value below
    -1 becomes -1, a value above [max_count] becomes [max_count], a
    value in the range is unchanged; and clamping twice is clamping
    once.  The period register's value [max_count] is at least -1 (it
    is an unsigned count). *)
Theorem clamp_range_idempotent (max_count v : Z) :
  -1 <= max_count ->
  -1 <= clamp max_count v <= max_count
  /\ (v < -1 -> clamp max_count v = -1)
  /\ (max_count < v -> clamp max_count v = max_count)
  /\ (-1 <= v <= max_count -> clamp max_count v = v)
  /\ clamp max_count (clamp max_count v) = clamp max_count v.
Proof.
  intros H. unfold clamp. repeat split; intros; lia.
Qed.

(** An instance: 70000 on the program's channel is clamped to 65535. *)
Lemma clamp_range_idempotent_witness :
  -1 <= MAX_COUNT
  /\ -1 <= clamp MAX_COUNT 70000 <= MAX_COUNT
  /\ (70000 < -1 -> clamp MAX_COUNT 70000 = -1)
  /\ (MAX_COUNT < 70000 -> clamp MAX_COUNT 70000 = MAX_COUNT)
  /\ (-1 <= 70000 <= MAX_COUNT -> clamp MAX_COUNT 70000 = 70000)
  /\ clamp MAX_COUNT (clamp MAX_COUNT 70000) = clamp MAX_COUNT 70000.
Proof.
  split; [vm_compute; discriminate|].
  apply (clamp_range_idempotent MAX_COUNT 70000). vm_compute; discriminate.
Defined.

(** The squares of [0 .. 255], the rising half of the fade. *)
Lemma range_256_squares :
  map (fun i => i ^ 2) (range 256) =
  map (fun k => Z.of_nat k * Z.of_nat k) (seq 0 256).
Proof. vm_compute. reflexivity. Qed.

(** C7, as the code has it. One run of the timer callback calls [set]
    513 times: first with the 256 values [i^2] for [i] from 0 up to
    255, then with the 257 values [i^2] for [i] from 256 down to 0. *)
Theorem tick_calls_513 :
  tick_body record_call [] = Some tick_calls
  /\ tick_calls =
     map (fun i => i ^ 2) (range 256)
     ++ map (fun i => i ^ 2) (range3 256 (-1) (-1))
  /\ length (range 256) = 256%nat
  /\ length (range3 256 (-1) (-1)) = 257%nat
  /\ range 256 = map Z.of_nat (seq 0 256)
  /\ range3 256 (-1) (-1) = rev (map Z.of_nat (seq 0 257))
  /\ length tick_calls = 513%nat.
Proof. vm_compute. repeat split; reflexivity. Qed.

(** C7, as stated, fails: the calls of one run are not 512. *)
Lemma tick_calls_not_512 : length tick_calls <> 512%nat.
Proof. vm_compute. discriminate. Qed.

(* ================================================================= *)
(** ** Properties of the sequencer program *)

(** C1. With the period register at 65535 and the off sentinel -1 as
    threshold (stored as the largest word, 2^32 - 1), one full period
    makes its comparison at each of the 65536 counter values from 65535
    down to 0, executes the instruction with the HIGH side-set at none
    of them, and the pin is LOW in every cycle of the period and at
    its end. *)
Theorem off_sentinel_never_high (s : sm_state) :
  pc s = 0%nat ->
  isr s = MAX_COUNT ->
  next_threshold s = to_word (-1) ->
  exists tr : list event,
    (forall fuel, (Z.to_nat (3 * MAX_COUNT + 6) <= fuel)%nat ->
       run_period fuel s = Some (tr, period_end s))
    /\ compared tr = countdown (Z.to_nat MAX_COUNT)
    /\ length (compared tr) = Z.to_nat 65536
    /\ high_fired tr = 0%nat
    /\ Forall (fun e => ev_pin e = false /\ ev_pc e <> 4%nat) tr
    /\ pin (period_end s) = false
    /\ x (period_end s) = WORD - 1.
Proof.
  intros Hpc Hisr Hthr.
  rewrite MAX_COUNT_val in *. rewrite minus_one_word, WORD_val in Hthr.
  exists (period_events (y s) (next_threshold s) (Z.to_nat (isr s))).
  assert (Hover : next_threshold s < 0
                  \/ Z.of_nat (Z.to_nat (isr s)) < next_threshold s)
    by (right; rewrite Hisr, Hthr; lia).
  split; [|split; [|split; [|split; [|split; [|split]]]]].
  - intros fuel Hfuel. apply run_whole_period; trivial.
    + rewrite Hisr, WORD_val. lia.
    + rewrite Hisr. lia.
  - rewrite period_compared, Hisr. reflexivity.
  - rewrite period_compared, countdown_length, Hisr. lia.
  - rewrite period_fired. now apply fired_none.
  - unfold period_events. repeat constructor; cbn; try discriminate.
    now apply loop_all_low.
  - unfold period_end. cbn [pin]. now apply loop_pin_none.
  - unfold period_end. cbn [x]. rewrite Hthr, WORD_val. reflexivity.
Qed.

(** An instance: the program's channel after [pwm.set(-1)], see
    [pwm_after_off] below. *)
Lemma off_sentinel_never_high_witness :
  exists tr : list event,
    (forall fuel, (Z.to_nat (3 * MAX_COUNT + 6) <= fuel)%nat ->
       run_period fuel (SM 0 0 0 65535 65535 false [4294967295]) =
       Some (tr, period_end (SM 0 0 0 65535 65535 false [4294967295])))
    /\ compared tr = countdown (Z.to_nat MAX_COUNT)
    /\ length (compared tr) = Z.to_nat 65536
    /\ high_fired tr = 0%nat
    /\ Forall (fun e => ev_pin e = false /\ ev_pc e <> 4%nat) tr
    /\ pin (period_end (SM 0 0 0 65535 65535 false [4294967295])) = false
    /\ x (period_end (SM 0 0 0 65535 65535 false [4294967295])) = WORD - 1.
Proof.
  apply (off_sentinel_never_high (SM 0 0 0 65535 65535 false [4294967295]));
    reflexivity.
Defined.

(** The state of the program's channel after [pwm.set(-1)], before the
    state machine has made a step. *)
Lemma pwm_after_off :
  match pwm with
  | Some p => option_map _sm (set 0 (-1) p)
  | None => None
  end = Some (SM 0 0 0 65535 65535 false [4294967295]).
Proof. reflexivity. Qed.

(** What a period shows when the threshold is the reload value. *)
Lemma full_on_events (y0 : Z) (k : nat) :
  period_events y0 (Z.of_nat k) k =
  [Event 0 y0 false; Event 1 y0 false; Event 2 y0 false;
   Event pwmloop (Z.of_nat k) false]
  ++ Event 4 (Z.of_nat k) true :: Event skip (Z.of_nat k) true
       :: match k with
          | O => []
          | S k' => loop_events (Z.of_nat k) true k'
          end.
Proof.
  unfold period_events. destruct k as [|k]; cbn [loop_events orb app].
  - reflexivity.
  - rewrite Z.eqb_refl. reflexivity.
Qed.

(** The shape of a period whose threshold is the reload value. *)
Lemma full_on_shape (s : sm_state) (max_count : Z) :
  pc s = 0%nat ->
  isr s = max_count ->
  0 <= max_count < WORD ->
  next_threshold s = max_count ->
  exists low rest : list event,
    (forall fuel, (Z.to_nat (3 * max_count + 6) <= fuel)%nat ->
       run_period fuel s = Some (low ++ rest, period_end s))
    /\ low = [Event 0 (y s) false; Event 1 (y s) false; Event 2 (y s) false;
              Event pwmloop max_count false]
    /\ Forall (fun e => ev_pin e = true) rest
    /\ length rest = Z.to_nat (2 * max_count + 2)
    /\ length (low ++ rest) = Z.to_nat (2 * max_count + 6)
    /\ high_cycles (low ++ rest) = Z.to_nat (2 * max_count + 2)
    /\ high_fired (low ++ rest) = 1%nat
    /\ phase_levels (low ++ rest) =
       false :: repeat true (Z.to_nat (max_count + 1)).
Proof.
  intros Hpc Hisr Hmc Hthr.
  assert (exists k, max_count = Z.of_nat k) as [k Hk]
    by (exists (Z.to_nat max_count); lia).
  rewrite Hk in Hisr, Hmc, Hthr |- *. clear Hk.
  pose (rest := Event 4 (Z.of_nat k) true :: Event skip (Z.of_nat k) true
                  :: match k with
                     | O => []
                     | S k' => loop_events (Z.of_nat k) true k'
                     end).
  assert (Hev : period_events (y s) (next_threshold s) (Z.to_nat (isr s)) =
                [Event 0 (y s) false; Event 1 (y s) false;
                 Event 2 (y s) false; Event pwmloop (Z.of_nat k) false]
                ++ rest).
  { rewrite Hthr, Hisr, Nat2Z.id. apply full_on_events. }
  assert (Hrest : Forall (fun e => ev_pin e = true) rest).
  { unfold rest. repeat constructor.
    destruct k; [constructor|apply loop_all_high]. }
  assert (Hlen : length rest = Z.to_nat (2 * Z.of_nat k + 2)).
  { unfold rest. cbn [length]. destruct k as [|k']; cbn [length].
    - reflexivity.
    - rewrite loop_length, fired_none by lia. lia. }
  exists [Event 0 (y s) false; Event 1 (y s) false;
          Event 2 (y s) false; Event pwmloop (Z.of_nat k) false], rest.
  split.
  { intros fuel Hfuel. rewrite <- Hev. apply run_whole_period; trivial.
    - rewrite Hisr. exact Hmc.
    - rewrite Hisr. lia. }
  split; [reflexivity|].
  split; [exact Hrest|]. split; [exact Hlen|].
  split; [rewrite length_app, Hlen; cbn [length]; lia|].
  split.
  { unfold high_cycles. rewrite filter_app, length_app.
    fold (high_cycles rest). rewrite (high_cycles_all _ Hrest), Hlen.
    reflexivity. }
  split.
  { unfold high_fired, rest. rewrite filter_app, length_app. cbn.
    destruct k as [|k']; [reflexivity|].
    pose proof (fired_none (Z.of_nat (S k')) k' true) as Hn.
    unfold high_fired in Hn. rewrite Hn by lia. reflexivity. }
  unfold phase_levels, rest. rewrite filter_app, map_app. cbn.
  replace (Z.to_nat (Z.of_nat k + 1)) with (S k) by lia.
  cbn [repeat]. do 2 f_equal.
  destruct k as [|k']; [reflexivity|].
  apply (loop_phase_levels_high (Z.of_nat (S k')) k').
Qed.

(** Once the pin is HIGH, every comparison of the inner loop sees it
    HIGH. *)
Lemma loop_compare_levels_high thr : forall k,
  compare_levels (loop_events thr true k) = repeat true (S k).
Proof.
  induction k as [|k IH]; cbn [loop_events orb].
  - destruct (thr =? Z.of_nat 0); reflexivity.
  - unfold compare_levels in *.
    destruct (thr =? Z.of_nat (S k)); cbn; now rewrite IH.
Qed.

(** C2. With the threshold equal to the period register [max_count],
    and one step per counter value, the pin taken as the comparison at
    that value sees it: the period has [max_count + 1] steps, for the
    counter values from [max_count] down to 0.  The pin is LOW at the
    first step only, where it still is as the side-set of the fetch,
    the first instruction of the period, has left it; the HIGH side-set
    fires in that step, and the pin is HIGH at the other [max_count]
    steps. *)
Theorem full_on_all_but_first_step (s : sm_state) (max_count : Z) :
  pc s = 0%nat ->
  isr s = max_count ->
  0 <= max_count < WORD ->
  next_threshold s = max_count ->
  exists tr : list event,
    (forall fuel, (Z.to_nat (3 * max_count + 6) <= fuel)%nat ->
       run_period fuel s = Some (tr, period_end s))
    /\ hd_error tr = Some (Event 0 (y s) false)
    /\ compared tr = countdown (Z.to_nat max_count)
    /\ length (compare_levels tr) = Z.to_nat (max_count + 1)
    /\ compare_levels tr = false :: repeat true (Z.to_nat max_count)
    /\ count_occ bool_dec (compare_levels tr) true = Z.to_nat max_count
    /\ count_occ bool_dec (compare_levels tr) false = 1%nat
    /\ high_fired tr = 1%nat
    /\ pin (period_end s) = true.
Proof.
  intros Hpc Hisr Hmc Hthr.
  assert (exists k, max_count = Z.of_nat k) as [k Hk]
    by (exists (Z.to_nat max_count); lia).
  rewrite Hk in Hisr, Hmc, Hthr |- *. clear Hk. rewrite Nat2Z.id.
  exists (period_events (y s) (next_threshold s) (Z.to_nat (isr s))).
  assert (Hlv : compare_levels
                  (period_events (y s) (next_threshold s) (Z.to_nat (isr s)))
                = false :: repeat true k).
  { rewrite Hthr, Hisr, Nat2Z.id, full_on_events.
    unfold compare_levels. rewrite filter_app, map_app. cbn.
    f_equal. destruct k as [|k']; [reflexivity|].
    apply (loop_compare_levels_high (Z.of_nat (S k')) k'). }
  split.
  { intros fuel Hfuel. apply run_whole_period; trivial; rewrite Hisr; lia. }
  split; [reflexivity|].
  split; [rewrite period_compared, Hisr, Nat2Z.id; reflexivity|].
  split; [rewrite Hlv; cbn [length]; rewrite repeat_length; lia|].
  split; [exact Hlv|].
  split.
  { rewrite Hlv, count_occ_cons_neq by discriminate.
    now apply count_occ_repeat_eq. }
  split.
  { rewrite Hlv, count_occ_cons_eq by reflexivity.
    rewrite count_occ_repeat_neq by discriminate. reflexivity. }
  split.
  { rewrite period_fired. apply fired_once. rewrite Hthr, Hisr. lia. }
  unfold period_end. cbn [pin]. apply loop_pin_hit. rewrite Hthr, Hisr. lia.
Qed.

(** An instance: period register 3, threshold 3 waiting in X, the pin
    left HIGH by the period before. *)
Lemma full_on_all_but_first_step_witness :
  exists tr : list event,
    (forall fuel, (Z.to_nat (3 * 3 + 6) <= fuel)%nat ->
       run_period fuel (SM 0 3 0 3 3 true []) =
       Some (tr, period_end (SM 0 3 0 3 3 true [])))
    /\ hd_error tr = Some (Event 0 0 false)
    /\ compared tr = countdown (Z.to_nat 3)
    /\ length (compare_levels tr) = Z.to_nat (3 + 1)
    /\ compare_levels tr = false :: repeat true (Z.to_nat 3)
    /\ count_occ bool_dec (compare_levels tr) true = Z.to_nat 3
    /\ count_occ bool_dec (compare_levels tr) false = 1%nat
    /\ high_fired tr = 1%nat
    /\ pin (period_end (SM 0 3 0 3 3 true [])) = true.
Proof.
  apply (full_on_all_but_first_step (SM 0 3 0 3 3 true []) 3);
    [reflexivity | reflexivity | rewrite WORD_val; lia | reflexivity].
Defined.

(** The same period of the program's channel counted in clock cycles:
    [2 * 65535 + 6] cycles, the pin HIGH in all but the first four;
    and at the end of the fetch and of each counter value's turn: LOW
    after the fetch, HIGH after each of the 65536 turns. *)
Lemma full_on_in_cycles :
  cycles_per_period MAX_COUNT MAX_COUNT = Z.to_nat (2 * MAX_COUNT + 6)
  /\ high_per_period MAX_COUNT MAX_COUNT = Z.to_nat (2 * MAX_COUNT + 2)
  /\ phases_per_period MAX_COUNT MAX_COUNT =
     false :: repeat true (Z.to_nat (MAX_COUNT + 1)).
Proof.
  destruct (full_on_shape (SM 0 MAX_COUNT 0 MAX_COUNT MAX_COUNT false [])
              MAX_COUNT)
    as (low & rest & Hrun & _ & _ & _ & Hlen & Hhigh & _ & Hph);
    try reflexivity.
  { rewrite MAX_COUNT_val, WORD_val. lia. }
  specialize (Hrun (Z.to_nat (3 * MAX_COUNT + 6)) (Nat.le_refl _)).
  unfold cycles_per_period, high_per_period, phases_per_period, period_of.
  rewrite Hrun. auto.
Qed.

(** C3. For thresholds [a < b] between 0 and [max_count], a period
    with threshold [b] has the pin HIGH in at least as many clock
    cycles as a period with threshold [a]: the numbers are [2 * b + 2]
    and [2 * a + 2]. *)
Theorem duty_monotone (sa sb : sm_state) (max_count a b : Z) :
  0 <= max_count < WORD ->
  0 <= a < b -> b <= max_count ->
  pc sa = 0%nat -> isr sa = max_count -> next_threshold sa = a ->
  pc sb = 0%nat -> isr sb = max_count -> next_threshold sb = b ->
  exists tra trb : list event,
    (forall fuel, (Z.to_nat (3 * max_count + 6) <= fuel)%nat ->
       run_period fuel sa = Some (tra, period_end sa)
       /\ run_period fuel sb = Some (trb, period_end sb))
    /\ high_cycles tra = Z.to_nat (2 * a + 2)
    /\ high_cycles trb = Z.to_nat (2 * b + 2)
    /\ (high_cycles tra <= high_cycles trb)%nat.
Proof.
  intros Hmc Hab Hb Hpa Hia Hta Hpb Hib Htb.
  exists (period_events (y sa) (next_threshold sa) (Z.to_nat (isr sa))),
         (period_events (y sb) (next_threshold sb) (Z.to_nat (isr sb))).
  assert (Ha : high_cycles
                 (period_events (y sa) (next_threshold sa) (Z.to_nat (isr sa)))
               = Z.to_nat (2 * a + 2)).
  { rewrite period_high_cycles, loop_high_cycles; rewrite Hta, ?Hia; lia. }
  assert (Hb' : high_cycles
                 (period_events (y sb) (next_threshold sb) (Z.to_nat (isr sb)))
               = Z.to_nat (2 * b + 2)).
  { rewrite period_high_cycles, loop_high_cycles; rewrite Htb, ?Hib; lia. }
  split; [|split; [exact Ha|split; [exact Hb'|rewrite Ha, Hb'; lia]]].
  intros fuel Hfuel.
  split; apply run_whole_period; trivial; rewrite ?Hia, ?Hib; lia.
Qed.

(** An instance: thresholds 16 and 25 on the program's channel. *)
Lemma duty_monotone_witness :
  exists tra trb : list event,
    (forall fuel, (Z.to_nat (3 * 65535 + 6) <= fuel)%nat ->
       run_period fuel (SM 0 0 0 0 65535 false [16]) =
       Some (tra, period_end (SM 0 0 0 0 65535 false [16]))
       /\ run_period fuel (SM 0 16 0 16 65535 true [25]) =
          Some (trb, period_end (SM 0 16 0 16 65535 true [25])))
    /\ high_cycles tra = Z.to_nat (2 * 16 + 2)
    /\ high_cycles trb = Z.to_nat (2 * 25 + 2)
    /\ (high_cycles tra <= high_cycles trb)%nat.
Proof.
  apply (duty_monotone (SM 0 0 0 0 65535 false [16])
                       (SM 0 16 0 16 65535 true [25]) 65535 16 25);
    try reflexivity; rewrite ?WORD_val; lia.
Defined.

(** With threshold 0 the inner loop stays LOW down to the last
    comparison, where the HIGH side-set fires. *)
Lemma loop_events_zero : forall k,
  exists pre,
    loop_events 0 false k =
    pre ++ [Event pwmloop 0 false; Event 4 0 true; Event skip 0 true]
    /\ Forall (fun e => ev_pin e = false) pre.
Proof.
  induction k as [|k [pre [IH Hlow]]].
  - exists []. split; [reflexivity|constructor].
  - exists (Event pwmloop (Z.of_nat (S k)) false
              :: Event skip (Z.of_nat (S k)) false :: pre).
    split; [|repeat constructor; exact Hlow].
    cbn [loop_events].
    replace (0 =? Z.of_nat (S k)) with false
      by (symmetry; apply Z.eqb_neq; lia).
    cbn [orb app]. now rewrite IH.
Qed.

(** What a period compares, and what thresholds 0 and -1 make of it. *)
Lemma compare_shape (s : sm_state) (max_count : Z) :
  pc s = 0%nat ->
  isr s = max_count ->
  0 <= max_count < WORD ->
  exists tr : list event,
    (forall fuel, (Z.to_nat (3 * max_count + 6) <= fuel)%nat ->
       run_period fuel s = Some (tr, period_end s))
    /\ compared tr = countdown (Z.to_nat max_count)
    /\ length (compared tr) = Z.to_nat (max_count + 1)
    /\ (forall c, In c (compared tr) <-> 0 <= c <= max_count)
    /\ (next_threshold s = 0 ->
        high_fired tr = 1%nat
        /\ high_cycles tr = 2%nat
        /\ pin (period_end s) = true
        /\ exists pre,
             tr = pre ++ [Event pwmloop 0 false; Event 4 0 true;
                          Event skip 0 true]
             /\ Forall (fun e => ev_pin e = false) pre)
    /\ (next_threshold s = to_word (-1) -> max_count < WORD - 1 ->
        high_fired tr = 0%nat
        /\ high_cycles tr = 0%nat
        /\ pin (period_end s) = false).
Proof.
  intros Hpc Hisr Hmc.
  exists (period_events (y s) (next_threshold s) (Z.to_nat (isr s))).
  split; [|split; [|split; [|split; [|split]]]].
  - intros fuel Hfuel. apply run_whole_period; trivial; rewrite Hisr; lia.
  - rewrite period_compared, Hisr. reflexivity.
  - rewrite period_compared, countdown_length, Hisr. lia.
  - intros c. rewrite period_compared, countdown_In, Hisr. lia.
  - intros Hthr. rewrite Hthr.
    split; [rewrite period_fired; apply fired_once; lia|].
    split; [rewrite period_high_cycles, loop_high_cycles by lia; reflexivity|].
    split; [unfold period_end; cbn [pin]; rewrite Hthr;
            apply loop_pin_hit; lia|].
    destruct (loop_events_zero (Z.to_nat (isr s))) as [pre [Hpre Hlow]].
    exists (Event 0 (y s) false :: Event 1 (y s) false
              :: Event 2 (y s) false :: pre).
    split; [unfold period_events; rewrite Hpre; reflexivity|].
    repeat constructor. exact Hlow.
  - intros Hthr Hlt. rewrite minus_one_word in Hthr.
    assert (Hover : next_threshold s < 0
                    \/ Z.of_nat (Z.to_nat (isr s)) < next_threshold s)
      by (right; rewrite Hisr, Hthr; lia).
    split; [rewrite period_fired; now apply fired_none|].
    split.
    + apply high_cycles_none. unfold period_events.
      repeat constructor.
      eapply Forall_impl; [|apply (loop_all_low _ _ Hover)].
      intros e [He _]. exact He.
    + unfold period_end. cbn [pin]. now apply loop_pin_none.
Qed.

(** C10, as the code has it. In one period the threshold is compared
    with the counter at each value from [max_count] down to 0, which is
    [max_count + 1] comparisons, 0 among them.  A threshold of 0 fires
    the HIGH side-set once, at the last comparison, and the pin is HIGH
    for the last two clock cycles of the period and at its end; the
    sentinel -1 fires it never and leaves the pin LOW. *)
Theorem compare_down_to_zero (s : sm_state) (max_count : Z) :
  pc s = 0%nat ->
  isr s = max_count ->
  0 <= max_count < WORD ->
  exists tr : list event,
    (forall fuel, (Z.to_nat (3 * max_count + 6) <= fuel)%nat ->
       run_period fuel s = Some (tr, period_end s))
    /\ compared tr = countdown (Z.to_nat max_count)
    /\ length (compared tr) = Z.to_nat (max_count + 1)
    /\ (forall c, In c (compared tr) <-> 0 <= c <= max_count)
    /\ (next_threshold s = 0 ->
        high_fired tr = 1%nat
        /\ high_cycles tr = 2%nat
        /\ pin (period_end s) = true
        /\ exists pre,
             tr = pre ++ [Event pwmloop 0 false; Event 4 0 true;
                          Event skip 0 true]
             /\ Forall (fun e => ev_pin e = false) pre)
    /\ (next_threshold s = to_word (-1) -> max_count < WORD - 1 ->
        high_fired tr = 0%nat
        /\ high_cycles tr = 0%nat
        /\ pin (period_end s) = false).
Proof. exact (compare_shape s max_count). Qed.

(** An instance: period register 2 and threshold 0 in the FIFO. *)
Lemma compare_down_to_zero_witness :
  exists tr : list event,
    (forall fuel, (Z.to_nat (3 * 2 + 6) <= fuel)%nat ->
       run_period fuel (SM 0 7 0 7 2 true [0]) =
       Some (tr, period_end (SM 0 7 0 7 2 true [0])))
    /\ compared tr = countdown (Z.to_nat 2)
    /\ length (compared tr) = Z.to_nat (2 + 1)
    /\ (forall c, In c (compared tr) <-> 0 <= c <= 2)
    /\ (next_threshold (SM 0 7 0 7 2 true [0]) = 0 ->
        high_fired tr = 1%nat
        /\ high_cycles tr = 2%nat
        /\ pin (period_end (SM 0 7 0 7 2 true [0])) = true
        /\ exists pre,
             tr = pre ++ [Event pwmloop 0 false; Event 4 0 true;
                          Event skip 0 true]
             /\ Forall (fun e => ev_pin e = false) pre)
    /\ (next_threshold (SM 0 7 0 7 2 true [0]) = to_word (-1) ->
        2 < WORD - 1 ->
        high_fired tr = 0%nat
        /\ high_cycles tr = 0%nat
        /\ pin (period_end (SM 0 7 0 7 2 true [0])) = false).
Proof.
  apply (compare_down_to_zero (SM 0 7 0 7 2 true [0]) 2);
    [reflexivity | reflexivity | rewrite WORD_val; lia].
Defined.

(** C10, as stated, fails at the program's [max_count = 65535]: the
    counter value 0 is among the values compared, and a threshold of 0
    fires the HIGH side-set, which the sentinel -1 does not. *)
Lemma zero_threshold_fires :
  In 0 (compared_per_period MAX_COUNT 0)
  /\ fired_per_period MAX_COUNT 0 = 1%nat
  /\ fired_per_period MAX_COUNT (to_word (-1)) = 0%nat
  /\ ~ (~ In 0 (compared_per_period MAX_COUNT 0)
        /\ fired_per_period MAX_COUNT 0 = 0%nat).
Proof.
  assert (Hmc : 0 <= MAX_COUNT < WORD)
    by (rewrite MAX_COUNT_val, WORD_val; lia).
  unfold compared_per_period, fired_per_period.
  rewrite !period_of_eq by exact Hmc.
  rewrite period_compared, !period_fired.
  rewrite fired_once by (rewrite MAX_COUNT_val; lia).
  rewrite fired_none
    by (right; rewrite minus_one_word, MAX_COUNT_val, WORD_val; lia).
  assert (H0 : In 0 (countdown (Z.to_nat MAX_COUNT)))
    by (apply countdown_In; rewrite MAX_COUNT_val; lia).
  repeat split; trivial.
  intros [H _]. exact (H H0).
Qed.

(* ================================================================= *)
(** ** Properties of the controller and the sequencer together *)

(** C5. In every state that the system reaches after [__init__],
    whatever is put into the FIFO in between, the instruction at
    address 0 leaves the pin LOW, whether the FIFO holds a word (which
    goes to the OSR) or is empty (the OSR gets the old threshold X);
    the pin stays LOW over the two loads, and the period that starts
    there runs to its end, where the next one starts. *)
Theorem period_starts_low
  (sm_id pin_no max_count count_freq : Z) (p : PIOPWM) (s : sm_state) :
  __init__ sm_id pin_no max_count count_freq = Some p ->
  reachable any_word (_sm p) s ->
  pc s = 0%nat ->
  pin (step s) = false
  /\ pc (step s) = 1%nat
  /\ (tx_fifo s = [] -> osr (step s) = x s /\ tx_fifo (step s) = [])
  /\ (forall w q, tx_fifo s = w :: q ->
        osr (step s) = w /\ tx_fifo (step s) = q)
  /\ pin (steps 2 s) = false
  /\ pin (steps 3 s) = false
  /\ pc (steps 3 s) = pwmloop
  /\ exists tr : list event,
       (forall fuel, (Z.to_nat (3 * to_word max_count + 6) <= fuel)%nat ->
          run_period fuel s = Some (Event 0 (y s) false :: tr, period_end s))
       /\ pc (period_end s) = 0%nat.
Proof.
  intros Hinit Hreach Hpc.
  destruct (init_wf _ _ _ _ _ Hinit) as (Hwf0 & _ & Hisr0 & _).
  destruct (reachable_wf _ _ _ Hwf0 Hreach) as [Hwf Hisr].
  rewrite Hisr0 in Hisr.
  pose proof (to_word_range max_count) as Hrange.
  assert (Hrun := run_whole_period s).
  destruct s as [n xv yv o i pn q]. cbn [pc isr y] in *. subst n i.
  cbn [tx_fifo x].
  split; [destruct q; reflexivity|].
  split; [destruct q; reflexivity|].
  split; [intros ->; split; reflexivity|].
  split; [intros w q' ->; split; reflexivity|].
  split; [destruct q; reflexivity|].
  split; [destruct q; reflexivity|].
  split; [destruct q; reflexivity|].
  eexists. split; [|reflexivity].
  intros fuel Hfuel. rewrite Hrun by (trivial; lia). reflexivity.
Qed.

(** An instance: a channel with period register 2 after [set(1)], one
    period, and [set(2)]; the period has left the pin HIGH. *)
Lemma period_starts_low_witness :
  pin (step (SM 0 1 4294967295 1 2 true [2])) = false
  /\ pc (step (SM 0 1 4294967295 1 2 true [2])) = 1%nat
  /\ (tx_fifo (SM 0 1 4294967295 1 2 true [2]) = [] ->
      osr (step (SM 0 1 4294967295 1 2 true [2])) =
      x (SM 0 1 4294967295 1 2 true [2])
      /\ tx_fifo (step (SM 0 1 4294967295 1 2 true [2])) = [])
  /\ (forall w q, tx_fifo (SM 0 1 4294967295 1 2 true [2]) = w :: q ->
        osr (step (SM 0 1 4294967295 1 2 true [2])) = w
        /\ tx_fifo (step (SM 0 1 4294967295 1 2 true [2])) = q)
  /\ pin (steps 2 (SM 0 1 4294967295 1 2 true [2])) = false
  /\ pin (steps 3 (SM 0 1 4294967295 1 2 true [2])) = false
  /\ pc (steps 3 (SM 0 1 4294967295 1 2 true [2])) = pwmloop
  /\ exists tr : list event,
       (forall fuel, (Z.to_nat (3 * to_word 2 + 6) <= fuel)%nat ->
          run_period fuel (SM 0 1 4294967295 1 2 true [2]) =
          Some (Event 0 (y (SM 0 1 4294967295 1 2 true [2])) false :: tr,
                period_end (SM 0 1 4294967295 1 2 true [2])))
       /\ pc (period_end (SM 0 1 4294967295 1 2 true [2])) = 0%nat.
Proof.
  apply (period_starts_low 0 25 2 10000000
           (Build_PIOPWM (SM 0 0 0 2 2 false []) 2)).
  - reflexivity.
  - cbn [_sm].
    (* set(1), one period of ten clock cycles, set(2) *)
    apply (reach_step _ _ (SM 0 1 4294967295 1 2 true [])).
    2:{ apply (sys_put any_word (SM 0 1 4294967295 1 2 true []) 2).
        - reflexivity.
        - exists 2. reflexivity. }
    apply (reachable_steps any_word (SM 0 0 0 2 2 false []) 10
             (push 1 (SM 0 0 0 2 2 false []))).
    apply (reach_step _ _ (SM 0 0 0 2 2 false [])).
    + apply reach_init.
    + apply (sys_put any_word (SM 0 0 0 2 2 false []) 1).
      * reflexivity.
      * exists 1. reflexivity.
  - reflexivity.
Defined.

(** C6. [set] returns for every integer, and what it puts is the
    value clamped: from every well-formed state of the running system
    there is a number of clock cycles after which the call has
    returned, and the newest entry of the FIFO is then, as a word, the
    largest of the value and -1, cut down to [_max_count]: -1 for a
    value below -1, [_max_count] for a value above it, the value itself
    in between, and in each case a number from -1 to [_max_count].
    When the FIFO has room, the call returns without waiting; when it
    is full, the oldest word has been fetched by then.  The model of
    [set] has no outcome besides waiting and returning: nothing in it
    raises. *)
Theorem set_never_fails (self : PIOPWM) (value : Z) :
  wf (_sm self) ->
  exists (n : nat) (self' : PIOPWM) (put_value : Z),
    (forall fuel, (n <= fuel)%nat -> set fuel value self = Some self')
    /\ (full (_sm self) = false -> n = 0%nat)
    /\ _max_count self' = _max_count self
    /\ tx_fifo (_sm self') =
       (if full (_sm self) then tl (tx_fifo (_sm self))
        else tx_fifo (_sm self))
       ++ [to_word put_value]
    /\ put_value = Z.min (Z.max value (-1)) (_max_count self)
    /\ (_max_count self < value -> put_value = _max_count self)
    /\ (-1 <= value <= _max_count self -> put_value = value)
    /\ (-1 <= _max_count self ->
        (value < -1 -> put_value = -1)
        /\ -1 <= put_value <= _max_count self)
    /\ wf (_sm self').
Proof.
  intros Hwf.
  assert (Hclamp : clamp (_max_count self) value =
                   Z.min (Z.max value (-1)) (_max_count self))
    by reflexivity.
  unfold set.
  destruct (full (_sm self)) eqn:Hfull.
  - destruct (put_returns (clamp (_max_count self) value) (_sm self) Hwf)
      as (n & s' & Hput & Hfifo).
    rewrite Hfull in Hfifo.
    exists n, (Build_PIOPWM s' (_max_count self)),
           (clamp (_max_count self) value).
    split; [intros fuel Hfuel; now rewrite (Hput fuel Hfuel)|].
    split; [discriminate|].
    split; [reflexivity|].
    split; [exact Hfifo|].
    split; [exact Hclamp|].
    split; [rewrite Hclamp; lia|].
    split; [rewrite Hclamp; lia|].
    split; [rewrite Hclamp; lia|].
    cbn [_sm]. eapply put_wf; [exact Hwf|apply (Hput n); lia].
  - exists 0%nat,
      (Build_PIOPWM (push (to_word (clamp (_max_count self) value)) (_sm self))
                    (_max_count self)),
      (clamp (_max_count self) value).
    split.
    { intros fuel _. destruct fuel; cbn [put]; rewrite Hfull; reflexivity. }
    split; [reflexivity|].
    split; [reflexivity|].
    split; [reflexivity|].
    split; [exact Hclamp|].
    split; [rewrite Hclamp; lia|].
    split; [rewrite Hclamp; lia|].
    split; [rewrite Hclamp; lia|].
    cbn [_sm]. now apply push_wf.
Qed.

(** An instance: a full FIFO, the state machine at its decrement, and a
    value above [_max_count]. *)
Lemma set_never_fails_witness :
  exists (n : nat) (self' : PIOPWM) (put_value : Z),
    (forall fuel, (n <= fuel)%nat ->
       set fuel 70000 (Build_PIOPWM (SM 5 7 1 7 2 false [1; 2; 0; 1]) 2) =
       Some self')
    /\ (full (SM 5 7 1 7 2 false [1; 2; 0; 1]) = false -> n = 0%nat)
    /\ _max_count self' = 2
    /\ tx_fifo (_sm self') =
       (if full (SM 5 7 1 7 2 false [1; 2; 0; 1])
        then tl [1; 2; 0; 1]
        else [1; 2; 0; 1])
       ++ [to_word put_value]
    /\ put_value = Z.min (Z.max 70000 (-1)) 2
    /\ (2 < 70000 -> put_value = 2)
    /\ (-1 <= 70000 <= 2 -> put_value = 70000)
    /\ (-1 <= 2 -> (70000 < -1 -> put_value = -1) /\ -1 <= put_value <= 2)
    /\ wf (_sm self').
Proof.
  apply (set_never_fails
           (Build_PIOPWM (SM 5 7 1 7 2 false [1; 2; 0; 1]) 2) 70000).
  unfold wf, TX_DEPTH. cbn [_sm pc y isr tx_fifo length pwm_prog].
  rewrite WORD_val. lia.
Defined.

(** The call of the witness above waits four clock cycles, up to the
    fetch: three do not suffice, four do, and the value 70000 has gone
    in as 2. *)
Lemma set_waits_for_fetch :
  set 3 70000 (Build_PIOPWM (SM 5 7 1 7 2 false [1; 2; 0; 1]) 2) = None
  /\ set 4 70000 (Build_PIOPWM (SM 5 7 1 7 2 false [1; 2; 0; 1]) 2) =
     Some (Build_PIOPWM (SM 1 7 4294967295 1 2 false [2; 0; 1; 2]) 2).
Proof. split; reflexivity. Qed.




(* ================================================================= *)
(** ** The fade *)

(** Every word of the fade lies between 0 and 65535. *)
Lemma fade_words_range :
  Forall (fun w => 0 <= w <= 65535) (fade_words MAX_COUNT).
Proof.
  apply Forall_forall. intros w Hw.
  assert (H : forallb (fun w => (0 <=? w) && (w <=? 65535))
                      (fade_words MAX_COUNT) = true)
    by (vm_compute; reflexivity).
  rewrite forallb_forall in H. specialize (H w Hw).
  apply andb_true_iff in H. destruct H as [H1 H2].
  apply Z.leb_le in H1. apply Z.leb_le in H2. lia.
Qed.

(** While the fade driver is the only caller of [set], the threshold X,
    the OSR and every pending word stay between 0 and 65535. *)
Lemma fade_threshold_range (s0 s : sm_state) :
  0 <= x s0 <= 65535 -> 0 <= osr s0 <= 65535 ->
  Forall (fun w => 0 <= w <= 65535) (tx_fifo s0) ->
  reachable (fade_word MAX_COUNT) s0 s ->
  0 <= x s <= 65535 /\ 0 <= osr s <= 65535
  /\ Forall (fun w => 0 <= w <= 65535) (tx_fifo s).
Proof.
  intros Hx Ho Hq. induction 1 as [|s s' _ (IHx & IHo & IHq) Hstep].
  - auto.
  - destruct Hstep as [s|s w _ Hw].
    + destruct s as [n xv yv o i p q]. cbn [x osr tx_fifo] in *.
      destruct n as [|[|[|[|[|[|n]]]]]].
      * destruct q as [|w q].
        -- rewrite step_fetch_empty. cbn [x osr tx_fifo]. auto.
        -- rewrite step_fetch_word. cbn [x osr tx_fifo].
           inversion IHq; subst. auto.
      * rewrite step_load_x. cbn [x osr tx_fifo]. auto.
      * rewrite step_load_y. cbn [x osr tx_fifo]. auto.
      * rewrite step_compare. cbn [x osr tx_fifo]. auto.
      * rewrite step_set_high. cbn [x osr tx_fifo]. auto.
      * rewrite step_decrement. cbn [x osr tx_fifo]. auto.
      * destruct n; unfold step; cbn [pc nth_error pwm_prog x osr tx_fifo]; auto.
    + unfold push, set_fifo. cbn [x osr tx_fifo].
      split; [exact IHx|]. split; [exact IHo|].
      apply Forall_app. split; [exact IHq|].
      constructor; [|constructor].
      pose proof fade_words_range as Hr. rewrite Forall_forall in Hr.
      apply Hr. exact Hw.
Qed.

(** The clamped 256 squared is a word of the fade. *)
Lemma fade_peak_in : In 65535 (fade_words MAX_COUNT).
Proof.
  assert (H : existsb (Z.eqb 65535) (fade_words MAX_COUNT) = true)
    by (vm_compute; reflexivity).
  apply existsb_exists in H. destruct H as (w & Hw & Heq).
  apply Z.eqb_eq in Heq. now subst w.
Qed.

(** Neighbours in the fade: rising up to index 256, falling after. *)
Lemma fade_rises_then_falls (i : nat) :
  ((i < 256)%nat ->
   nth i (fade_words MAX_COUNT) 0 < nth (S i) (fade_words MAX_COUNT) 0)
  /\ ((256 <= i < 512)%nat ->
      nth (S i) (fade_words MAX_COUNT) 0 < nth i (fade_words MAX_COUNT) 0).
Proof.
  assert (Hup : forallb (fun i => nth i (fade_words MAX_COUNT) 0
                                  <? nth (S i) (fade_words MAX_COUNT) 0)
                        (seq 0 256) = true) by (vm_compute; reflexivity).
  assert (Hdown : forallb (fun i => nth (S i) (fade_words MAX_COUNT) 0
                                    <? nth i (fade_words MAX_COUNT) 0)
                          (seq 256 256) = true) by (vm_compute; reflexivity).
  rewrite forallb_forall in Hup, Hdown.
  split; intros Hi.
  - apply Z.ltb_lt. apply Hup. apply in_seq. lia.
  - apply Z.ltb_lt. apply Hdown. apply in_seq. lia.
Qed.

(** C8, as the code has it. With [max_count = 65535] one run of the
    callback hands 513 words to the FIFO.  They read the same backwards
    as forwards: the squares of 0 to 255 rising to 65025, then 65535
    (256 squared is 65536, clamped), then the squares of 255 to 0
    falling back to 0.  All lie between 0 and 65535, and in every state
    that the program's channel reaches while the fade is the only
    caller of [set], the threshold register X lies between 0 and
    65535. *)
Theorem fade_trace_shape (p : PIOPWM) (s : sm_state) :
  pwm = Some p ->
  reachable (fade_word MAX_COUNT) (_sm p) s ->
  rev (fade_words MAX_COUNT) = fade_words MAX_COUNT
  /\ length (fade_words MAX_COUNT) = 513%nat
  /\ fade_words MAX_COUNT =
     map (fun i => i ^ 2) (range 256)
     ++ 65535 :: rev (map (fun i => i ^ 2) (range 256))
  /\ nth 0 (fade_words MAX_COUNT) 0 = 0
  /\ nth 255 (fade_words MAX_COUNT) 0 = 65025
  /\ nth 256 (fade_words MAX_COUNT) 0 = 65535
  /\ nth 257 (fade_words MAX_COUNT) 0 = 65025
  /\ nth 512 (fade_words MAX_COUNT) 0 = 0
  /\ (forall i, (i < 256)%nat ->
        nth i (fade_words MAX_COUNT) 0 < nth (S i) (fade_words MAX_COUNT) 0)
  /\ (forall i, (256 <= i < 512)%nat ->
        nth (S i) (fade_words MAX_COUNT) 0 < nth i (fade_words MAX_COUNT) 0)
  /\ Forall (fun w => 0 <= w <= 65535) (fade_words MAX_COUNT)
  /\ 0 <= x s <= 65535.
Proof.
  intros Hp Hreach.
  split; [vm_compute; reflexivity|].
  split; [vm_compute; reflexivity|].
  split; [vm_compute; reflexivity|].
  split; [vm_compute; reflexivity|].
  split; [vm_compute; reflexivity|].
  split; [vm_compute; reflexivity|].
  split; [vm_compute; reflexivity|].
  split; [vm_compute; reflexivity|].
  split; [intros i; apply fade_rises_then_falls|].
  split; [intros i; apply fade_rises_then_falls|].
  split; [apply fade_words_range|].
  unfold pwm in Hp. rewrite init_state in Hp. injection Hp as <-.
  cbn [_sm] in Hreach. change (to_word MAX_COUNT) with 65535 in Hreach.
  refine (proj1 (fade_threshold_range _ s _ _ _ Hreach)).
  - cbn [x]. lia.
  - cbn [osr]. lia.
  - constructor.
Qed.

(** An instance: the program's channel after the put of 65535 and two
    clock cycles. *)
Lemma fade_trace_shape_witness :
  rev (fade_words MAX_COUNT) = fade_words MAX_COUNT
  /\ length (fade_words MAX_COUNT) = 513%nat
  /\ fade_words MAX_COUNT =
     map (fun i => i ^ 2) (range 256)
     ++ 65535 :: rev (map (fun i => i ^ 2) (range 256))
  /\ nth 0 (fade_words MAX_COUNT) 0 = 0
  /\ nth 255 (fade_words MAX_COUNT) 0 = 65025
  /\ nth 256 (fade_words MAX_COUNT) 0 = 65535
  /\ nth 257 (fade_words MAX_COUNT) 0 = 65025
  /\ nth 512 (fade_words MAX_COUNT) 0 = 0
  /\ (forall i, (i < 256)%nat ->
        nth i (fade_words MAX_COUNT) 0 < nth (S i) (fade_words MAX_COUNT) 0)
  /\ (forall i, (256 <= i < 512)%nat ->
        nth (S i) (fade_words MAX_COUNT) 0 < nth i (fade_words MAX_COUNT) 0)
  /\ Forall (fun w => 0 <= w <= 65535) (fade_words MAX_COUNT)
  /\ 0 <= x (steps 2 (push 65535 (SM 0 0 0 65535 65535 false []))) <= 65535.
Proof.
  apply (fade_trace_shape
           (Build_PIOPWM (SM 0 0 0 65535 65535 false []) 65535)
           (steps 2 (push 65535 (SM 0 0 0 65535 65535 false [])))).
  - reflexivity.
  - cbn [_sm]. apply reachable_steps.
    apply (reach_step _ _ (SM 0 0 0 65535 65535 false [])).
    + apply reach_init.
    + apply sys_put.
      * reflexivity.
      * exact fade_peak_in.
Defined.

(** C8, as stated, fails: the words of one run are 513 and not 512,
    and their peak is 65535 and not 65025. *)
Lemma fade_not_512_nor_peak_65025 :
  length (fade_words MAX_COUNT) <> 512%nat
  /\ In 65535 (fade_words MAX_COUNT)
  /\ ~ Forall (fun w => w <= 65025) (fade_words MAX_COUNT)
  /\ ~ (length (fade_words MAX_COUNT) = 512%nat
        /\ Forall (fun w => w <= 65025) (fade_words MAX_COUNT)).
Proof.
  pose proof fade_peak_in as Hin.
  assert (Hpeak : ~ Forall (fun w => w <= 65025) (fade_words MAX_COUNT)).
  { intros H. rewrite Forall_forall in H. specialize (H _ Hin). lia. }
  split; [vm_compute; discriminate|].
  split; [exact Hin|]. split; [exact Hpeak|].
  intros [_ H]. exact (Hpeak H).
Qed.

(* ================================================================= *)
(** ** More facts about the running system *)

Module RunFacts.

Import Pio Pwm Period StepFacts PeriodFacts SystemFacts.

(** A clock cycle keeps [in_period]. *)
Lemma step_in_period (s : sm_state) : in_period s -> in_period (step s).
Proof.
  intros (Hwf & Hy & Hx).
  split; [apply (step_wf s Hwf)|].
  destruct s as [n xv yv o i p q].
  destruct Hwf as (Hpc & Hyr & Hi & Hq). cbn [pc x y isr tx_fifo] in *.
  destruct (pc_cases n Hpc) as [->|[->|[->|[->|[->| ->]]]]].
  - destruct q as [|w q]; [rewrite step_fetch_empty|rewrite step_fetch_word];
      cbn [pc x y isr]; split; intros; lia.
  - rewrite step_load_x. cbn [pc x y isr]. split; intros; lia.
  - rewrite step_load_y. cbn [pc x y isr]. split; intros; lia.
  - rewrite step_compare. destruct (xv =? yv) eqn:E; cbn [pc x y isr].
    + apply Z.eqb_eq in E. split; intros; lia.
    + split; intros; lia.
  - rewrite step_set_high. cbn [pc x y isr]. split; intros; lia.
  - rewrite step_decrement. destruct (yv =? 0) eqn:E; cbn [pc x y isr].
    + split; intros; lia.
    + apply Z.eqb_neq in E. rewrite Z.mod_small by lia. split; intros; lia.
Qed.

Lemma steps_in_period : forall (n : nat) (s : sm_state),
  in_period s -> in_period (steps n s).
Proof.
  induction n as [|n IH]; intros s H; cbn [steps]; [exact H|].
  apply IH. now apply step_in_period.
Qed.

Lemma steps_isr : forall (n : nat) (s : sm_state),
  wf s -> isr (steps n s) = isr s.
Proof.
  induction n as [|n IH]; intros s H; cbn [steps]; [reflexivity|].
  destruct (step_wf s H) as [Hwf Hisr]. rewrite IH by exact Hwf. exact Hisr.
Qed.

(** A put into a FIFO with room keeps [in_period]. *)
Lemma push_in_period (w : Z) (s : sm_state) :
  full s = false -> in_period s -> in_period (push w s).
Proof.
  intros Hroom (Hwf & Hy & Hx).
  split; [apply (push_wf w s Hroom Hwf)|].
  destruct s as [n xv yv o i p q]. exact (conj Hy Hx).
Qed.

Lemma reachable_in_period (may_put : Z -> Prop) (s0 s : sm_state) :
  in_period s0 -> reachable may_put s0 s -> in_period s.
Proof.
  intros H0. induction 1 as [|s s' _ IH Hstep]; [exact H0|].
  destruct Hstep as [s|s w Hroom _].
  - now apply step_in_period.
  - now apply push_in_period.
Qed.

Lemma init_in_period (sm_id pin_no max_count count_freq : Z) (p : PIOPWM) :
  __init__ sm_id pin_no max_count count_freq = Some p -> in_period (_sm p).
Proof.
  intros H. destruct (init_wf _ _ _ _ _ H) as (Hwf & Hpc & _).
  split; [exact Hwf|]. rewrite Hpc. split; intros; lia.
Qed.

(** What is true of X, of the OSR and of the pending words at the start
    and of every word put, is true of them in every state reached. *)
Lemma reachable_threshold (P : Z -> Prop) (may_put : Z -> Prop)
      (s0 s : sm_state) :
  (forall w, may_put w -> P w) ->
  P (x s0) -> P (osr s0) -> Forall P (tx_fifo s0) ->
  reachable may_put s0 s ->
  P (x s) /\ P (osr s) /\ Forall P (tx_fifo s).
Proof.
  intros Hput Hx Ho Hq. induction 1 as [|s s' _ (IHx & IHo & IHq) Hstep].
  - auto.
  - destruct Hstep as [s|s w _ Hw].
    + destruct s as [n xv yv o i p q]. cbn [x osr tx_fifo] in *.
      destruct n as [|[|[|[|[|[|n]]]]]].
      * destruct q as [|w q].
        -- rewrite step_fetch_empty. cbn [x osr tx_fifo]. auto.
        -- rewrite step_fetch_word. cbn [x osr tx_fifo].
           inversion IHq; subst. auto.
      * rewrite step_load_x. cbn [x osr tx_fifo]. auto.
      * rewrite step_load_y. cbn [x osr tx_fifo]. auto.
      * rewrite step_compare. cbn [x osr tx_fifo]. auto.
      * rewrite step_set_high. cbn [x osr tx_fifo]. auto.
      * rewrite step_decrement. cbn [x osr tx_fifo]. auto.
      * destruct n; unfold step; cbn [pc nth_error pwm_prog x osr tx_fifo];
          auto.
    + unfold push, set_fifo. cbn [x osr tx_fifo].
      split; [exact IHx|]. split; [exact IHo|].
      apply Forall_app. split; [exact IHq|].
      constructor; [apply Hput, Hw|constructor].
Qed.

(** The word that [set] puts is the off sentinel or a counter value. *)
Lemma set_word_ok (max_count w : Z) :
  0 <= max_count < WORD -> set_word max_count w -> threshold_ok max_count w.
Proof.
  intros Hmc [v ->]. unfold threshold_ok, clamp.
  destruct (Z.lt_ge_cases v 0) as [Hneg|Hpos].
  - left. replace (Z.min (Z.max v (-1)) max_count) with (-1) by lia.
    reflexivity.
  - right. rewrite to_word_small by lia. lia.
Qed.

(** Where the pin changes. *)
Lemma step_pin (s : sm_state) :
  pin (step s) = pin s
  \/ (pc s = 0%nat /\ pin s = true /\ pin (step s) = false)
  \/ (pc s = 4%nat /\ pin s = false /\ pin (step s) = true).
Proof.
  destruct s as [n xv yv o i p q].
  destruct n as [|[|[|[|[|[|n]]]]]].
  - destruct q as [|w q]; [rewrite step_fetch_empty|rewrite step_fetch_word];
      cbn [pc pin]; destruct p; auto.
  - left. reflexivity.
  - left. reflexivity.
  - left. rewrite step_compare. reflexivity.
  - rewrite step_set_high. cbn [pc pin]. destruct p; auto.
  - left. rewrite step_decrement. reflexivity.
  - left. destruct n; reflexivity.
Qed.

End RunFacts.

(* ================================================================= *)
(** ** How long [put] waits *)

Module WaitFacts.

Import Pio Pwm Period StepFacts PeriodFacts SystemFacts RunFacts.

(** [put] is [put_count] without the count. *)
Lemma put_count_put (v : Z) : forall (fuel : nat) (s : sm_state),
  put fuel v s = option_map snd (put_count fuel v s).
Proof.
  induction fuel as [|fuel IH]; intros s; cbn [put put_count];
    destruct (full s); try reflexivity.
  rewrite IH. destruct (put_count fuel v (step s)) as [[c s']|]; reflexivity.
Qed.

Lemma returns_now (v : Z) (s : sm_state) :
  full s = false -> returns_within 0 v s.
Proof.
  intros Hroom. exists 0%nat. split; [lia|].
  intros fuel _. destruct fuel; cbn [put_count steps]; rewrite Hroom;
    reflexivity.
Qed.

Lemma returns_later (N : nat) (v : Z) (s : sm_state) :
  full s = true -> returns_within N v (step s) -> returns_within (S N) v s.
Proof.
  intros Hfull (c & Hc & Hput). exists (S c). split; [lia|].
  intros [|fuel] Hfuel; [lia|].
  cbn [put_count steps]. rewrite Hfull, (Hput fuel) by lia. reflexivity.
Qed.

Lemma returns_weaken (N N' : nat) (v : Z) (s : sm_state) :
  (N <= N')%nat -> returns_within N v s -> returns_within N' v s.
Proof.
  intros HN (c & Hc & Hput). exists c. split; [lia|exact Hput].
Qed.

Section Bound.

Variables (v i w : Z) (F : list Z).
Hypothesis HF : length (w :: F) = TX_DEPTH.

Lemma bound_at_fetch xv yv o p :
  returns_within 1 v (SM 0 xv yv o i p (w :: F)).
Proof.
  apply returns_later; [apply (is_full i w F HF)|].
  rewrite step_fetch_word. apply returns_now.
  apply full_false_length. cbn [tx_fifo length] in *. lia.
Qed.

(** From the decrement at counter [k]: two clock cycles per counter
    value still to come, one for the HIGH side-set if it is still to
    come, and the fetch. *)
Lemma bound_at_decrement : forall (k : nat) xv o p,
  Z.of_nat k < WORD ->
  returns_within (2 * k + 2 + (if xv <? Z.of_nat k then 1 else 0)) v
                 (SM 5 xv (Z.of_nat k) o i p (w :: F)).
Proof.
  induction k as [|k IH]; intros xv o p Hk.
  - apply (returns_weaken 2); [lia|].
    apply returns_later; [apply (is_full i w F HF)|].
    rewrite step_decrement. cbn [Z.of_nat Z.eqb]. apply bound_at_fetch.
  - assert (Hnz : (Z.of_nat (S k) =? 0) = false) by (apply Z.eqb_neq; lia).
    assert (Hdec : (Z.of_nat (S k) - 1) mod WORD = Z.of_nat k)
      by (rewrite Z.mod_small; lia).
    specialize (IH xv o).
    destruct (xv =? Z.of_nat k) eqn:E.
    + pose proof (proj1 (Z.eqb_eq _ _) E) as E'.
      apply (returns_weaken (S (S (S (2 * k + 2 + (if xv <? Z.of_nat k then 1 else 0)))))).
      { destruct (Z.ltb_spec xv (Z.of_nat k)), (Z.ltb_spec xv (Z.of_nat (S k)));
          lia. }
      apply returns_later; [apply (is_full i w F HF)|].
      rewrite step_decrement, Hnz, Hdec.
      apply returns_later; [apply (is_full i w F HF)|].
      rewrite step_compare, E.
      apply returns_later; [apply (is_full i w F HF)|].
      rewrite step_set_high. apply IH. lia.
    + apply (returns_weaken (S (S (2 * k + 2 + (if xv <? Z.of_nat k then 1 else 0))))).
      { apply Z.eqb_neq in E.
        destruct (Z.ltb_spec xv (Z.of_nat k)), (Z.ltb_spec xv (Z.of_nat (S k)));
          lia. }
      apply returns_later; [apply (is_full i w F HF)|].
      rewrite step_decrement, Hnz, Hdec.
      apply returns_later; [apply (is_full i w F HF)|].
      rewrite step_compare, E. apply IH. lia.
Qed.

Lemma bound_at_compare (k : nat) xv o p :
  Z.of_nat k < WORD ->
  returns_within (2 * k + 4) v (SM 3 xv (Z.of_nat k) o i p (w :: F)).
Proof.
  intros Hk.
  pose proof (bound_at_decrement k xv o) as Hd.
  destruct (xv =? Z.of_nat k) eqn:E.
  - apply (returns_weaken (S (S (2 * k + 2 + (if xv <? Z.of_nat k then 1 else 0))))).
    { pose proof (proj1 (Z.eqb_eq _ _) E).
      destruct (Z.ltb_spec xv (Z.of_nat k)); lia. }
    apply returns_later; [apply (is_full i w F HF)|].
    rewrite step_compare, E.
    apply returns_later; [apply (is_full i w F HF)|].
    rewrite step_set_high. apply Hd. lia.
  - apply (returns_weaken (S (2 * k + 2 + (if xv <? Z.of_nat k then 1 else 0)))).
    { destruct (Z.ltb_spec xv (Z.of_nat k)); lia. }
    apply returns_later; [apply (is_full i w F HF)|].
    rewrite step_compare, E. apply Hd. lia.
Qed.

(** From every state of the running machine: at most one period. *)
Lemma bound_anywhere (n : nat) xv yv o p :
  in_period (SM n xv yv o i p (w :: F)) ->
  returns_within (Z.to_nat (2 * i + 6)) v (SM n xv yv o i p (w :: F)).
Proof.
  intros ((Hpc & Hy & Hi & _) & Hyi & Hxy). cbn [pc x y isr tx_fifo] in *.
  assert (Hload : forall a b c,
            returns_within (2 * Z.to_nat i + 4) v (SM 3 a i b i c (w :: F))).
  { intros a b c. pose proof (bound_at_compare (Z.to_nat i) a b c) as H.
    rewrite Z2Nat.id in H by lia. apply H. lia. }
  destruct (pc_cases n Hpc) as [->|[->|[->|[->|[->| ->]]]]].
  - apply (returns_weaken 1); [lia|]. apply bound_at_fetch.
  - apply (returns_weaken (S (S (2 * Z.to_nat i + 4)))); [lia|].
    apply returns_later; [apply (is_full i w F HF)|]. rewrite step_load_x.
    apply returns_later; [apply (is_full i w F HF)|]. rewrite step_load_y.
    apply Hload.
  - apply (returns_weaken (S (2 * Z.to_nat i + 4))); [lia|].
    apply returns_later; [apply (is_full i w F HF)|]. rewrite step_load_y.
    apply Hload.
  - assert (Hyle : yv <= i) by (apply Hyi; lia).
    apply (returns_weaken (2 * Z.to_nat yv + 4)); [lia|].
    pose proof (bound_at_compare (Z.to_nat yv) xv o p) as H.
    rewrite Z2Nat.id in H by lia. apply H. lia.
  - assert (Hyle : yv <= i) by (apply Hyi; lia).
    apply (returns_weaken
             (S (2 * Z.to_nat yv + 2 + (if xv <? yv then 1 else 0)))).
    { destruct (Z.ltb_spec xv yv); lia. }
    apply returns_later; [apply (is_full i w F HF)|]. rewrite step_set_high.
    pose proof (bound_at_decrement (Z.to_nat yv) xv o true) as H.
    rewrite Z2Nat.id in H by lia. apply H. lia.
  - assert (Hyle : yv <= i) by (apply Hyi; lia).
    apply (returns_weaken (2 * Z.to_nat yv + 2 + (if xv <? yv then 1 else 0))).
    { destruct (Z.ltb_spec xv yv); lia. }
    pose proof (bound_at_decrement (Z.to_nat yv) xv o p) as H.
    rewrite Z2Nat.id in H by lia. apply H. lia.
Qed.

End Bound.

(** [put] returns after at most one period of waiting. *)
Lemma put_within_period (v : Z) (s : sm_state) :
  in_period s -> returns_within (Z.to_nat (2 * isr s + 6)) v s.
Proof.
  intros Hin. destruct (full s) eqn:Hfull.
  - destruct s as [n xv yv o i p q].
    assert (Hlen : length q = TX_DEPTH).
    { apply full_true_length in Hfull.
      destruct Hin as ((_ & _ & _ & Hq) & _). cbn [tx_fifo] in *. lia. }
    destruct q as [|w F]; [discriminate|].
    cbn [isr]. now apply bound_anywhere.
  - apply (returns_weaken 0); [lia|]. now apply returns_now.
Qed.

End WaitFacts.

(* ================================================================= *)
(** ** The calls of [set] in a row *)

Module CallFacts.

Import Pio Pwm Period StepFacts PeriodFacts SystemFacts RunFacts WaitFacts.

(** What [put_count] returns: the word pushed after the cycles waited,
    into a FIFO with room. *)
Lemma put_count_spec (v : Z) : forall (fuel : nat) (s : sm_state) c s',
  put_count fuel v s = Some (c, s') ->
  s' = push (to_word v) (steps c s)
  /\ full (steps c s) = false
  /\ (c <= fuel)%nat.
Proof.
  induction fuel as [|fuel IH]; intros s c s'; cbn [put_count];
    destruct (full s) eqn:Hfull; try discriminate.
  - intros [= <- <-]. cbn [steps]. auto with arith.
  - destruct (put_count fuel v (step s)) as [[c0 s0]|] eqn:E; [|discriminate].
    intros [= <- <-]. destruct (IH _ _ _ E) as (-> & Hroom & Hc).
    cbn [steps]. auto with arith.
  - intros [= <- <-]. cbn [steps]. auto with arith.
Qed.

Lemma set_count_set (fuel : nat) (v : Z) (c : nat) (p : PIOPWM) :
  set fuel v p = option_map snd (set_count fuel v (c, p)).
Proof.
  unfold set, set_count. cbn [fst snd]. rewrite put_count_put.
  destruct (put_count fuel _ (_sm p)) as [[c0 s0]|]; reflexivity.
Qed.

Lemma for_each_set_count (fuel : nat) (g : Z -> Z) :
  forall (l : list Z) (c : nat) (p : PIOPWM),
    for_each l (fun i => set fuel (g i)) p =
    option_map snd (for_each l (fun i => set_count fuel (g i)) (c, p)).
Proof.
  induction l as [|a l IH]; intros c p; cbn [for_each]; [reflexivity|].
  rewrite (set_count_set fuel (g a) c p).
  destruct (set_count fuel (g a) (c, p)) as [[c1 p1]|]; cbn [option_map snd];
    [apply IH|reflexivity].
Qed.

(** [tick] is [tick_count] without the count. *)
Lemma tick_count_tick (fuel : nat) (p : PIOPWM) :
  tick fuel p = option_map snd (tick_count fuel p).
Proof.
  unfold tick, tick_count, tick_body.
  rewrite (for_each_set_count fuel (fun i => i ^ 2) (range 256) 0 p).
  destruct (for_each (range 256) _ (0%nat, p)) as [[c1 p1]|];
    cbn [option_map snd]; [|reflexivity].
  apply (for_each_set_count fuel (fun i => i ^ 2)).
Qed.

(** One call of [set] on the running machine. *)
Lemma set_count_bound (v : Z) (c : nat) (p : PIOPWM) :
  in_period (_sm p) ->
  exists (c' : nat) (p' : PIOPWM),
    (c' <= Z.to_nat (2 * isr (_sm p) + 6))%nat
    /\ (forall fuel, (Z.to_nat (2 * isr (_sm p) + 6) <= fuel)%nat ->
          set_count fuel v (c, p) = Some ((c + c')%nat, p'))
    /\ in_period (_sm p')
    /\ isr (_sm p') = isr (_sm p)
    /\ _max_count p' = _max_count p
    /\ (exists q, tx_fifo (_sm p') = q ++ [to_word (clamp (_max_count p) v)]).
Proof.
  intros Hin.
  destruct (put_within_period (clamp (_max_count p) v) (_sm p) Hin)
    as (c' & Hc' & Hput).
  destruct (put_count_spec _ _ _ _ _ (Hput c' (Nat.le_refl _)))
    as (_ & Hroom & _).
  pose proof (steps_in_period c' _ Hin) as Hin'.
  exists c',
    (Build_PIOPWM (push (to_word (clamp (_max_count p) v)) (steps c' (_sm p)))
                  (_max_count p)).
  split; [exact Hc'|].
  split.
  { intros fuel Hfuel. unfold set_count. cbn [fst snd].
    rewrite (Hput fuel) by lia. reflexivity. }
  cbn [_sm _max_count].
  split; [now apply push_in_period|].
  split.
  { destruct (push_wf (to_word (clamp (_max_count p) v)) _ Hroom (proj1 Hin'))
      as [_ ->]. apply steps_isr. exact (proj1 Hin). }
  split; [reflexivity|].
  exists (tx_fifo (steps c' (_sm p))). reflexivity.
Qed.

(** A loop of calls of [set]. *)
Lemma for_each_set_bound (g : Z -> Z) :
  forall (l : list Z) (c : nat) (p : PIOPWM),
    in_period (_sm p) ->
    exists (c' : nat) (p' : PIOPWM),
      (c' <= length l * Z.to_nat (2 * isr (_sm p) + 6))%nat
      /\ (forall fuel, (Z.to_nat (2 * isr (_sm p) + 6) <= fuel)%nat ->
            for_each l (fun i => set_count fuel (g i)) (c, p) =
            Some ((c + c')%nat, p'))
      /\ in_period (_sm p')
      /\ isr (_sm p') = isr (_sm p)
      /\ _max_count p' = _max_count p
      /\ (l <> [] ->
          exists q, tx_fifo (_sm p') =
                    q ++ [to_word (clamp (_max_count p) (g (last l 0)))]).
Proof.
  induction l as [|a l IH]; intros c p Hin.
  - exists 0%nat, p. split; [cbn; lia|].
    split; [intros; cbn [for_each]; now rewrite Nat.add_0_r|].
    split; [exact Hin|]. split; [reflexivity|]. split; [reflexivity|].
    intros H. now contradiction H.
  - destruct (set_count_bound (g a) c p Hin)
      as (c1 & p1 & Hc1 & Hset & Hin1 & Hisr1 & Hmc1 & q1 & Hq1).
    destruct (IH (c + c1)%nat p1 Hin1)
      as (c2 & p2 & Hc2 & Hloop & Hin2 & Hisr2 & Hmc2 & Hq2).
    rewrite Hisr1 in Hc2, Hloop.
    exists (c1 + c2)%nat, p2.
    split; [cbn [length]; lia|].
    split.
    { intros fuel Hfuel. cbn [for_each].
      rewrite (Hset fuel Hfuel), (Hloop fuel Hfuel).
      now rewrite Nat.add_assoc. }
    split; [exact Hin2|]. split; [congruence|]. split; [congruence|].
    intros _. destruct l as [|b l].
    + exists q1. cbn [last].
      cbn [for_each] in Hloop.
      specialize (Hloop _ (Nat.le_refl _)).
      assert (p2 = p1) by congruence. subst p2. exact Hq1.
    + destruct Hq2 as [q2 Hq2]; [discriminate|].
      exists q2. rewrite Hq2, Hmc1. reflexivity.
Qed.

End CallFacts.

(* ================================================================= *)
(** ** More facts about periods *)

Module DutyFacts.

Import Pio Pwm Period StepFacts PeriodFacts SystemFacts RunFacts.

Lemma in_range_spec (max_count thr : Z) :
  (0 <=? thr) && (thr <=? max_count) = true <-> 0 <= thr <= max_count.
Proof. rewrite andb_true_iff, !Z.leb_le. tauto. Qed.

Lemma out_of_range_spec (max_count thr : Z) :
  (0 <=? thr) && (thr <=? max_count) = false <-> thr < 0 \/ max_count < thr.
Proof. rewrite andb_false_iff, !Z.leb_gt. tauto. Qed.

(** The HIGH cycles of the inner loop, for every threshold. *)
Lemma loop_duty (thr : Z) (k : nat) :
  high_cycles (loop_events thr false k) = duty_cycles (Z.of_nat k) thr.
Proof.
  unfold duty_cycles.
  destruct ((0 <=? thr) && (thr <=? Z.of_nat k)) eqn:E.
  - apply in_range_spec in E. rewrite loop_high_cycles by lia. lia.
  - apply out_of_range_spec in E. apply high_cycles_none.
    eapply Forall_impl; [|apply (loop_all_low thr k E)].
    intros e [He _]. exact He.
Qed.

Lemma loop_fired (thr : Z) (k : nat) (p : bool) :
  high_fired (loop_events thr p k) =
  if (0 <=? thr) && (thr <=? Z.of_nat k) then 1%nat else 0%nat.
Proof.
  destruct ((0 <=? thr) && (thr <=? Z.of_nat k)) eqn:E.
  - apply in_range_spec in E. now apply fired_once.
  - apply out_of_range_spec in E. now apply fired_none.
Qed.

(** The pin rises at most once in the inner loop: a LOW stretch, then a
    HIGH stretch that begins with the HIGH side-set. *)
Lemma loop_one_edge (thr : Z) : forall k : nat,
  exists low high : list event,
    loop_events thr false k = low ++ high
    /\ Forall (fun e => ev_pin e = false) low
    /\ Forall (fun e => ev_pin e = true) high
    /\ (high = [] \/ exists c rest, high = Event 4 c true :: rest /\ c = thr).
Proof.
  induction k as [|k (low & high & IH & Hlow & Hhigh & Hhead)];
    cbn [loop_events orb].
  - destruct (thr =? Z.of_nat 0) eqn:E.
    + apply Z.eqb_eq in E.
      exists [Event pwmloop (Z.of_nat 0) false],
             [Event 4 (Z.of_nat 0) true; Event skip (Z.of_nat 0) true].
      split; [reflexivity|]. split; [repeat constructor|].
      split; [repeat constructor|]. right. eauto.
    + exists [Event pwmloop (Z.of_nat 0) false; Event skip (Z.of_nat 0) false],
             [].
      split; [reflexivity|]. split; [repeat constructor|].
      split; [constructor|]. now left.
  - destruct (thr =? Z.of_nat (S k)) eqn:E.
    + apply Z.eqb_eq in E.
      exists [Event pwmloop (Z.of_nat (S k)) false],
             (Event 4 (Z.of_nat (S k)) true :: Event skip (Z.of_nat (S k)) true
                :: loop_events thr true k).
      split; [reflexivity|]. split; [repeat constructor|].
      split; [repeat constructor; apply loop_all_high|]. right. eauto.
    + exists (Event pwmloop (Z.of_nat (S k)) false
                :: Event skip (Z.of_nat (S k)) false :: low), high.
      split; [cbn [app]; now rewrite IH|].
      split; [repeat constructor; exact Hlow|]. auto.
Qed.

(** The length of a period. *)
Lemma period_cycles (y0 thr : Z) (k : nat) :
  length (period_events y0 thr k) =
  (2 * k + 5 + if ((0 <=? thr) && (thr <=? Z.of_nat k))%Z then 1 else 0)%nat.
Proof. rewrite period_length, loop_fired. reflexivity. Qed.

(** *** Periods in a row *)

Lemma last_cons_default (A : Type) (a d : A) (l : list A) :
  last (a :: l) d = last l a.
Proof.
  revert a d. induction l as [|b l IH]; intros a d; [reflexivity|].
  change (last (a :: b :: l) d) with (last (b :: l) d).
  rewrite (IH b d). symmetry. apply (IH b a).
Qed.

(** The thresholds of the periods after the first are those of the
    state in which the first period ends. *)
Lemma threshold_at_next (s : sm_state) (j : nat) :
  threshold_at s (S j) = threshold_at (period_end s) j.
Proof.
  unfold threshold_at, period_end, next_threshold. cbn [tx_fifo x tl].
  destruct (tx_fifo s) as [|w q].
  - cbn [nth last]. destruct j; reflexivity.
  - cbn [nth tl]. now rewrite last_cons_default.
Qed.

Lemma threshold_at_first (s : sm_state) :
  threshold_at s 0 = next_threshold s.
Proof.
  unfold threshold_at, next_threshold.
  destruct (tx_fifo s); reflexivity.
Qed.

(** [n] periods with nothing put in between: the [j]-th has the duty of
    the [j]-th threshold, and each takes one word from the FIFO. *)
Lemma run_periods_duty (fuel : nat) : forall (n : nat) (s : sm_state),
  pc s = 0%nat ->
  0 <= isr s < WORD ->
  (3 * Z.to_nat (isr s) + 6 <= fuel)%nat ->
  exists (trs : list (list event)) (sf : sm_state),
    run_periods fuel n s = Some (trs, sf)
    /\ map high_cycles trs =
       map (fun j => duty_cycles (isr s) (threshold_at s j)) (seq 0 n)
    /\ map (@length event) trs =
       map (fun j => (2 * Z.to_nat (isr s) + 5
                      + if ((0 <=? threshold_at s j)
                            && (threshold_at s j <=? isr s))%Z
                        then 1 else 0)%nat) (seq 0 n)
    /\ pc sf = 0%nat
    /\ isr sf = isr s
    /\ tx_fifo sf = skipn n (tx_fifo s)
    /\ x sf = match n with
              | O => x s
              | S n' => threshold_at s n'
              end.
Proof.
  induction n as [|n IH]; intros s Hpc Hisr Hfuel.
  - exists [], s. cbn [run_periods seq map skipn]. repeat split; trivial.
  - cbn [run_periods]. rewrite run_whole_period by trivial.
    destruct (IH (period_end s)) as (trs & sf & Hrun & Hd & Hl & Hpcf & Hisrf
                                     & Hq & Hx); trivial.
    rewrite Hrun.
    exists (period_events (y s) (next_threshold s) (Z.to_nat (isr s)) :: trs),
           sf.
    change (isr (period_end s)) with (isr s) in *.
    split; [reflexivity|].
    split.
    { cbn [map seq]. rewrite <- seq_shift, map_map.
      rewrite period_high_cycles, loop_duty, Z2Nat.id, threshold_at_first
        by lia.
      f_equal. rewrite Hd. apply map_ext. intros j.
      now rewrite threshold_at_next. }
    split.
    { cbn [map seq]. rewrite <- seq_shift, map_map.
      rewrite period_cycles, Z2Nat.id, threshold_at_first by lia.
      f_equal. rewrite Hl. apply map_ext. intros j.
      now rewrite threshold_at_next. }
    split; [exact Hpcf|]. split; [exact Hisrf|].
    split.
    { rewrite Hq. unfold period_end. cbn [tx_fifo].
      destruct (tx_fifo s); [now destruct n|reflexivity]. }
    rewrite Hx. destruct n as [|n'].
    + rewrite threshold_at_first. reflexivity.
    + now rewrite threshold_at_next.
Qed.

End DutyFacts.

(* ================================================================= *)
(** ** Further properties *)

Import RunFacts WaitFacts CallFacts DutyFacts.

(** X1. [__init__] returns for every [max_count], with the period
    register primed to [max_count] truncated to 32 bits, the FIFO empty
    again and the pin LOW.  In every state the system reaches from
    there, whatever is put: the period register is unchanged, the
    program counter is inside the program, the FIFO holds at most four
    words, the counter is a word and in the inner loop at most the
    period register, and the instruction with the HIGH side-set is
    reached with X equal to Y only. *)
Theorem init_primes_and_invariant
  (sm_id pin_no max_count count_freq : Z) (s : sm_state) :
  reachable any_word
    (SM 0 0 0 (to_word max_count) (to_word max_count) false []) s ->
  __init__ sm_id pin_no max_count count_freq =
  Some (Build_PIOPWM
          (SM 0 0 0 (to_word max_count) (to_word max_count) false [])
          max_count)
  /\ (0 <= max_count < WORD -> to_word max_count = max_count)
  /\ isr s = to_word max_count
  /\ (pc s < length pwm_prog)%nat
  /\ (length (tx_fifo s) <= TX_DEPTH)%nat
  /\ 0 <= y s < WORD
  /\ ((3 <= pc s)%nat -> y s <= isr s)
  /\ (pc s = 4%nat -> x s = y s).
Proof.
  intros Hreach.
  pose proof (init_state sm_id pin_no max_count count_freq) as Hinit.
  pose proof (init_in_period _ _ _ _ _ Hinit) as Hin0. cbn [_sm] in Hin0.
  destruct (reachable_wf _ _ _ (proj1 Hin0) Hreach) as [_ Hisr].
  destruct (reachable_in_period _ _ _ Hin0 Hreach)
    as ((Hpc & Hy & _ & Hq) & Hyi & Hxy).
  split; [exact Hinit|].
  split; [apply to_word_small|].
  repeat split; trivial; lia.
Qed.

(** An instance: a channel with period register 2 after [set(1)] and
    six clock cycles, where the HIGH side-set is about to be executed. *)
Lemma init_primes_and_invariant_witness :
  __init__ 0 25 2 10000000 =
  Some (Build_PIOPWM (SM 0 0 0 (to_word 2) (to_word 2) false []) 2)
  /\ (0 <= 2 < WORD -> to_word 2 = 2)
  /\ isr (SM 4 1 1 1 2 false []) = to_word 2
  /\ (pc (SM 4 1 1 1 2 false []) < length pwm_prog)%nat
  /\ (length (tx_fifo (SM 4 1 1 1 2 false [])) <= TX_DEPTH)%nat
  /\ 0 <= y (SM 4 1 1 1 2 false []) < WORD
  /\ ((3 <= pc (SM 4 1 1 1 2 false []))%nat ->
      y (SM 4 1 1 1 2 false []) <= isr (SM 4 1 1 1 2 false []))
  /\ (pc (SM 4 1 1 1 2 false []) = 4%nat ->
      x (SM 4 1 1 1 2 false []) = y (SM 4 1 1 1 2 false [])).
Proof.
  apply (init_primes_and_invariant 0 25 2 10000000 (SM 4 1 1 1 2 false [])).
  apply (reachable_steps any_word (SM 0 0 0 2 2 false []) 6
           (push 1 (SM 0 0 0 2 2 false []))).
  apply (reach_step _ _ (SM 0 0 0 2 2 false [])).
  - apply reach_init.
  - apply (sys_put any_word (SM 0 0 0 2 2 false []) 1).
    + reflexivity.
    + exists 1. reflexivity.
Defined.

(** X2. A period has one rising edge at most: from its start the pin
    is LOW for a stretch of clock cycles and then HIGH to the end.  The
    HIGH stretch has [2 * thr + 2] cycles for a threshold [thr] from 0
    to the period register and none for any other threshold; the period
    has [2 * isr + 6] cycles when the pin rises and [2 * isr + 5] when
    it does not. *)
Theorem one_rising_edge (s : sm_state) :
  pc s = 0%nat ->
  0 <= isr s < WORD ->
  exists low high : list event,
    (forall fuel, (Z.to_nat (3 * isr s + 6) <= fuel)%nat ->
       run_period fuel s = Some (low ++ high, period_end s))
    /\ Forall (fun e => ev_pin e = false) low
    /\ Forall (fun e => ev_pin e = true) high
    /\ length high = duty_cycles (isr s) (next_threshold s)
    /\ length (low ++ high) =
       (Z.to_nat (2 * isr s + 5)
        + if ((0 <=? next_threshold s) && (next_threshold s <=? isr s))%Z
          then 1 else 0)%nat
    /\ pin (period_end s) =
       ((0 <=? next_threshold s) && (next_threshold s <=? isr s))%Z.
Proof.
  intros Hpc Hisr.
  destruct (loop_one_edge (next_threshold s) (Z.to_nat (isr s)))
    as (low & high & Hsplit & Hlow & Hhigh & _).
  exists (Event 0 (y s) false :: Event 1 (y s) false :: Event 2 (y s) false
            :: low), high.
  assert (Hev : period_events (y s) (next_threshold s) (Z.to_nat (isr s)) =
                (Event 0 (y s) false :: Event 1 (y s) false
                   :: Event 2 (y s) false :: low) ++ high).
  { unfold period_events. rewrite Hsplit. reflexivity. }
  split.
  { intros fuel Hfuel. rewrite <- Hev. apply run_whole_period; trivial. lia. }
  split; [repeat constructor; exact Hlow|].
  split; [exact Hhigh|].
  split.
  { pose proof (loop_duty (next_threshold s) (Z.to_nat (isr s))) as Hd.
    rewrite Z2Nat.id in Hd by lia. rewrite <- Hd, Hsplit.
    unfold high_cycles. rewrite filter_app, length_app.
    fold (high_cycles low). fold (high_cycles high).
    rewrite (high_cycles_none _ Hlow), (high_cycles_all _ Hhigh).
    reflexivity. }
  split.
  { rewrite <- Hev, period_cycles, Z2Nat.id by lia. lia. }
  unfold period_end. cbn [pin].
  destruct ((0 <=? next_threshold s) && (next_threshold s <=? isr s)) eqn:E.
  - apply in_range_spec in E. apply loop_pin_hit. lia.
  - apply out_of_range_spec in E. apply loop_pin_none. lia.
Qed.

(** An instance: period register 3, threshold 1 in the FIFO. *)
Lemma one_rising_edge_witness :
  exists low high : list event,
    (forall fuel,
       (Z.to_nat (3 * 3 + 6) <= fuel)%nat ->
       run_period fuel (SM 0 0 0 0 3 false [1]) =
       Some (low ++ high, period_end (SM 0 0 0 0 3 false [1])))
    /\ Forall (fun e => ev_pin e = false) low
    /\ Forall (fun e => ev_pin e = true) high
    /\ length high =
       duty_cycles 3 1
    /\ length (low ++ high) =
       (Z.to_nat (2 * 3 + 5)
        + if ((0 <=? 1) && (1 <=? 3))%Z
          then 1 else 0)%nat
    /\ pin (period_end (SM 0 0 0 0 3 false [1])) =
       ((0 <=? 1) && (1 <=? 3))%Z.
Proof.
  apply (one_rising_edge (SM 0 0 0 0 3 false [1])).
  - reflexivity.
  - cbn [isr]. rewrite WORD_val. lia.
Defined.

(** X3. The off sentinel works for every period register below
    [2^32 - 1] and for no other: with the period register at
    [2^32 - 1], the word that [set(-1)] puts equals the reload value,
    the HIGH side-set fires at the first comparison and the output is
    on for the rest of the period. *)
Theorem off_sentinel_needs_room (s : sm_state) :
  pc s = 0%nat ->
  0 <= isr s < WORD ->
  next_threshold s = to_word (-1) ->
  exists tr : list event,
    (forall fuel, (Z.to_nat (3 * isr s + 6) <= fuel)%nat ->
       run_period fuel s = Some (tr, period_end s))
    /\ (high_cycles tr = 0%nat <-> isr s < WORD - 1)
    /\ (isr s = WORD - 1 ->
        high_cycles tr = Z.to_nat (2 * isr s + 2)
        /\ length tr = Z.to_nat (2 * isr s + 6)
        /\ pin (period_end s) = true).
Proof.
  intros Hpc Hisr Hthr. rewrite minus_one_word in Hthr.
  exists (period_events (y s) (next_threshold s) (Z.to_nat (isr s))).
  split; [intros fuel Hfuel; apply run_whole_period; trivial; lia|].
  pose proof (loop_duty (next_threshold s) (Z.to_nat (isr s))) as Hd.
  rewrite Z2Nat.id in Hd by lia.
  rewrite period_high_cycles, Hd, Hthr. unfold duty_cycles.
  split.
  - destruct ((0 <=? WORD - 1) && (WORD - 1 <=? isr s)) eqn:E.
    + apply in_range_spec in E. rewrite WORD_val in *. lia.
    + apply out_of_range_spec in E. rewrite WORD_val in *. lia.
  - intros Hfull.
    assert (E : (0 <=? WORD - 1) && (WORD - 1 <=? isr s) = true)
      by (apply in_range_spec; rewrite WORD_val in *; lia).
    rewrite E. split; [rewrite Hfull; reflexivity|].
    split.
    + rewrite period_cycles, Z2Nat.id, E by lia. lia.
    + unfold period_end. cbn [pin]. apply loop_pin_hit. lia.
Qed.

(** An instance: the program's channel after [pwm.set(-1)]. *)
Lemma off_sentinel_needs_room_witness :
  exists tr : list event,
    (forall fuel,
       (Z.to_nat (3 * 65535 + 6)
        <= fuel)%nat ->
       run_period fuel (SM 0 0 0 65535 65535 false [4294967295]) =
       Some (tr, period_end (SM 0 0 0 65535 65535 false [4294967295])))
    /\ (high_cycles tr = 0%nat <->
        65535 < WORD - 1)
    /\ (65535 = WORD - 1 ->
        high_cycles tr =
        Z.to_nat (2 * 65535 + 2)
        /\ length tr =
           Z.to_nat (2 * 65535 + 6)
        /\ pin (period_end (SM 0 0 0 65535 65535 false [4294967295])) = true).
Proof.
  apply (off_sentinel_needs_room (SM 0 0 0 65535 65535 false [4294967295])).
  - reflexivity.
  - cbn [isr]. rewrite WORD_val. lia.
  - reflexivity.
Defined.

(** X4. With nothing put in between, the periods take the pending
    words in the order in which they were put, one per period: the
    [j]-th period has the duty and the length of the [j]-th word, and
    when the FIFO is used up every further period repeats the last
    threshold.  After [n] periods the first [n] words are gone from the
    FIFO and X holds the threshold of the last period. *)
Theorem periods_follow_fifo (s : sm_state) (n fuel : nat) :
  pc s = 0%nat ->
  0 <= isr s < WORD ->
  (3 * Z.to_nat (isr s) + 6 <= fuel)%nat ->
  exists (trs : list (list event)) (sf : sm_state),
    run_periods fuel n s = Some (trs, sf)
    /\ map high_cycles trs =
       map (fun j => duty_cycles (isr s) (threshold_at s j)) (seq 0 n)
    /\ map (@length event) trs =
       map (fun j => (2 * Z.to_nat (isr s) + 5
                      + if ((0 <=? threshold_at s j)
                            && (threshold_at s j <=? isr s))%Z
                        then 1 else 0)%nat) (seq 0 n)
    /\ pc sf = 0%nat
    /\ isr sf = isr s
    /\ tx_fifo sf = skipn n (tx_fifo s)
    /\ x sf = match n with
              | O => x s
              | S n' => threshold_at s n'
              end.
Proof. exact (run_periods_duty fuel n s). Qed.

(** An instance: period register 3, the words 2 and 0 pending, four
    periods: HIGH for 6, 2, 2 and 2 clock cycles. *)
Lemma periods_follow_fifo_witness :
  exists (trs : list (list event)) (sf : sm_state),
    run_periods 15 4 (SM 0 7 0 7 3 false [2; 0]) = Some (trs, sf)
    /\ map high_cycles trs =
       map (fun j => duty_cycles 3 (threshold_at (SM 0 7 0 7 3 false [2; 0]) j))
           (seq 0 4)
    /\ map (@length event) trs =
       map (fun j => (2 * Z.to_nat 3 + 5
                      + if ((0 <=? threshold_at (SM 0 7 0 7 3 false [2; 0]) j)
                            && (threshold_at (SM 0 7 0 7 3 false [2; 0]) j
                                <=? 3))%Z
                        then 1 else 0)%nat) (seq 0 4)
    /\ pc sf = 0%nat
    /\ isr sf = 3
    /\ tx_fifo sf = skipn 4 [2; 0]
    /\ x sf = threshold_at (SM 0 7 0 7 3 false [2; 0]) 3.
Proof.
  apply (periods_follow_fifo (SM 0 7 0 7 3 false [2; 0]) 4 15).
  - reflexivity.
  - cbn [isr]. rewrite WORD_val. lia.
  - cbn [isr]. lia.
Defined.

(** X5. From [set] to the pin: when [set(value)] is called on a
    channel whose FIFO is empty and whose state machine is at its
    fetch, the call does not wait, and the period that follows has the
    pin HIGH for no clock cycle when [value] is negative and for
    [2 * min(value, max_count) + 2] clock cycles when it is not.  The
    number grows with [value].  The period register is [_max_count] and
    less than [2^32 - 1]. *)
Theorem set_then_duty (self : PIOPWM) (value : Z) :
  pc (_sm self) = 0%nat ->
  tx_fifo (_sm self) = [] ->
  isr (_sm self) = _max_count self ->
  0 <= _max_count self < WORD - 1 ->
  exists (p1 : PIOPWM) (tr : list event),
    set 0 value self = Some p1
    /\ (forall fuel, (Z.to_nat (3 * _max_count self + 6) <= fuel)%nat ->
          run_period fuel (_sm p1) = Some (tr, period_end (_sm p1)))
    /\ high_cycles tr = duty_of_request (_max_count self) value
    /\ x (period_end (_sm p1)) = to_word (clamp (_max_count self) value)
    /\ tx_fifo (period_end (_sm p1)) = []
    /\ forall value', value <= value' ->
         (duty_of_request (_max_count self) value
          <= duty_of_request (_max_count self) value')%nat.
Proof.
  destruct self as [[n xv yv o i p q] mc].
  cbn [_sm _max_count pc tx_fifo isr]. intros -> -> -> Hmc.
  set (w := to_word (clamp mc value)).
  exists (Build_PIOPWM (SM 0 xv yv o mc p [w]) mc),
         (period_events yv w (Z.to_nat mc)).
  split; [reflexivity|].
  split.
  { intros fuel Hfuel. cbn [_sm].
    rewrite run_whole_period; cbn [pc isr]; trivial; lia. }
  split.
  { pose proof (loop_duty w (Z.to_nat mc)) as Hd.
    rewrite Z2Nat.id in Hd by lia.
    rewrite period_high_cycles, Hd.
    unfold duty_cycles, duty_of_request, w, clamp.
    destruct (Z.ltb_spec value 0) as [Hneg|Hpos].
    - replace (Z.min (Z.max value (-1)) mc) with (-1) by lia.
      rewrite minus_one_word.
      replace ((0 <=? WORD - 1) && (WORD - 1 <=? mc)) with false; trivial.
      symmetry. apply out_of_range_spec. lia.
    - rewrite to_word_small by lia.
      replace ((0 <=? Z.min (Z.max value (-1)) mc)
               && (Z.min (Z.max value (-1)) mc <=? mc)) with true
        by (symmetry; apply in_range_spec; lia).
      f_equal. lia. }
  split; [reflexivity|]. split; [reflexivity|].
  intros value' Hle. unfold duty_of_request.
  destruct (Z.ltb_spec value 0), (Z.ltb_spec value' 0); lia.
Qed.

(** An instance: the program's channel as [__init__] leaves it, and
    [set(70000)]. *)
Lemma set_then_duty_witness :
  exists (p1 : PIOPWM) (tr : list event),
    set 0 70000 (Build_PIOPWM (SM 0 0 0 65535 65535 false []) 65535) = Some p1
    /\ (forall fuel, (Z.to_nat (3 * 65535 + 6) <= fuel)%nat ->
          run_period fuel (_sm p1) = Some (tr, period_end (_sm p1)))
    /\ high_cycles tr = duty_of_request 65535 70000
    /\ x (period_end (_sm p1)) = to_word (clamp 65535 70000)
    /\ tx_fifo (period_end (_sm p1)) = []
    /\ forall value', 70000 <= value' ->
         (duty_of_request 65535 70000 <= duty_of_request 65535 value')%nat.
Proof.
  apply (set_then_duty
           (Build_PIOPWM (SM 0 0 0 65535 65535 false []) 65535) 70000).
  - reflexivity.
  - reflexivity.
  - reflexivity.
  - cbn [_max_count]. rewrite WORD_val. lia.
Defined.

(** X6. A call of [set] on the running machine waits for one period at
    most: [2 * isr + 6] clock cycles suffice in every state, and no
    cycle is waited when the FIFO has room.  The clamped value is then
    the newest word in the FIFO. *)
Theorem set_waits_at_most_one_period (self : PIOPWM) (value : Z) :
  in_period (_sm self) ->
  exists (c : nat) (self' : PIOPWM),
    (c <= Z.to_nat (2 * isr (_sm self) + 6))%nat
    /\ (full (_sm self) = false -> c = 0%nat)
    /\ (forall fuel, (Z.to_nat (2 * isr (_sm self) + 6) <= fuel)%nat ->
          set_count fuel value (0%nat, self) = Some (c, self')
          /\ set fuel value self = Some self')
    /\ in_period (_sm self')
    /\ isr (_sm self') = isr (_sm self)
    /\ exists q,
         tx_fifo (_sm self') = q ++ [to_word (clamp (_max_count self) value)].
Proof.
  intros Hin.
  destruct (set_count_bound value 0 self Hin)
    as (c & p' & Hc & Hset & Hin' & Hisr & _ & Hq).
  exists c, p'. split; [exact Hc|].
  split.
  { intros Hroom. specialize (Hset _ (Nat.le_refl _)).
    unfold set_count in Hset. cbn [fst snd] in Hset.
    destruct (Z.to_nat (2 * isr (_sm self) + 6)) as [|f];
      cbn [put_count] in Hset; rewrite Hroom in Hset;
      injection Hset as Hc0 _; lia. }
  split.
  { intros fuel Hfuel. split; [exact (Hset fuel Hfuel)|].
    rewrite (set_count_set fuel value 0 self), (Hset fuel Hfuel).
    reflexivity. }
  auto.
Qed.

(** An instance, in which the bound is reached: period register 2, a
    full FIFO, and the state machine just past its fetch with a
    threshold that will fire; the call waits the [2 * 2 + 6 = 10] clock
    cycles up to the next fetch. *)
Lemma set_waits_at_most_one_period_witness :
  exists (c : nat) (self' : PIOPWM),
    (c <= Z.to_nat (2 * 2 + 6))%nat
    /\ (full (SM 1 0 4294967295 1 2 false [1; 2; 0; 1]) = false -> c = 0%nat)
    /\ (forall fuel, (Z.to_nat (2 * 2 + 6) <= fuel)%nat ->
          set_count fuel 70000
            (0%nat, Build_PIOPWM (SM 1 0 4294967295 1 2 false [1; 2; 0; 1]) 2)
          = Some (c, self')
          /\ set fuel 70000
               (Build_PIOPWM (SM 1 0 4294967295 1 2 false [1; 2; 0; 1]) 2)
             = Some self')
    /\ in_period (_sm self')
    /\ isr (_sm self') = 2
    /\ exists q, tx_fifo (_sm self') = q ++ [to_word (clamp 2 70000)].
Proof.
  apply (set_waits_at_most_one_period
           (Build_PIOPWM (SM 1 0 4294967295 1 2 false [1; 2; 0; 1]) 2) 70000).
  unfold in_period, wf, TX_DEPTH.
  cbn [_sm pc x y isr tx_fifo length pwm_prog]. rewrite WORD_val. lia.
Defined.

Lemma set_wait_bound_reached :
  set_count 9 70000
    (0%nat, Build_PIOPWM (SM 1 0 4294967295 1 2 false [1; 2; 0; 1]) 2) = None
  /\ set_count 10 70000
       (0%nat, Build_PIOPWM (SM 1 0 4294967295 1 2 false [1; 2; 0; 1]) 2) =
     Some (10%nat,
           Build_PIOPWM (SM 1 1 4294967295 1 2 false [2; 0; 1; 2]) 2).
Proof. split; reflexivity. Qed.

(** The two loops of [tick]. *)
Lemma tick_loops :
  length (range 256) = 256%nat
  /\ length (range3 256 (-1) (-1)) = 257%nat
  /\ last (range3 256 (-1) (-1)) 0 = 0.
Proof. vm_compute. repeat split; reflexivity. Qed.

(** X7. [tick] returns on the running machine, whatever the state of
    the FIFO when it is called: each of its 513 calls of [set] waits
    one period at most, so with [2 * isr + 6] clock cycles for each of
    them the callback is through, having waited [513 * (2 * isr + 6)]
    clock cycles at most in all.  It leaves the channel running, with
    the word for [set(0)] as the newest in the FIFO.  For the program's
    period register 65535 the wait is shorter than the 4 seconds
    between two calls of the timer, at the state machine's clock of
    20 MHz. *)
Theorem tick_fits_timer_period (p : PIOPWM) :
  in_period (_sm p) ->
  exists (c : nat) (p' : PIOPWM),
    (forall fuel, (Z.to_nat (2 * isr (_sm p) + 6) <= fuel)%nat ->
       tick_count fuel p = Some (c, p') /\ tick fuel p = Some p')
    /\ (c <= 513 * Z.to_nat (2 * isr (_sm p) + 6))%nat
    /\ in_period (_sm p')
    /\ isr (_sm p') = isr (_sm p)
    /\ _max_count p' = _max_count p
    /\ (exists q, tx_fifo (_sm p') = q ++ [to_word (clamp (_max_count p) 0)])
    /\ (isr (_sm p) = MAX_COUNT -> Z.of_nat c < TIMER_PERIOD_CYCLES).
Proof.
  intros Hin.
  destruct tick_loops as (Hlen1 & Hlen2 & Hlast).
  destruct (for_each_set_bound (fun i => i ^ 2) (range 256) 0 p Hin)
    as (c1 & p1 & Hc1 & Hrun1 & Hin1 & Hisr1 & Hmc1 & _).
  destruct (for_each_set_bound (fun i => i ^ 2) (range3 256 (-1) (-1))
                               (0 + c1) p1 Hin1)
    as (c2 & p2 & Hc2 & Hrun2 & Hin2 & Hisr2 & Hmc2 & Hq2).
  rewrite Hisr1 in Hc2, Hrun2. rewrite Hlen1 in Hc1. rewrite Hlen2 in Hc2.
  assert (Htick : forall fuel,
            (Z.to_nat (2 * isr (_sm p) + 6) <= fuel)%nat ->
            tick_count fuel p = Some ((c1 + c2)%nat, p2)).
  { intros fuel Hfuel. unfold tick_count, tick_body.
    rewrite (Hrun1 fuel Hfuel), (Hrun2 fuel Hfuel). reflexivity. }
  exists (c1 + c2)%nat, p2.
  split.
  { intros fuel Hfuel. split; [exact (Htick fuel Hfuel)|].
    rewrite tick_count_tick, (Htick fuel Hfuel). reflexivity. }
  split; [lia|]. split; [exact Hin2|]. split; [congruence|].
  split; [congruence|].
  split.
  { destruct Hq2 as [q Hq].
    - intros H. rewrite H in Hlen2. discriminate Hlen2.
    - exists q. rewrite Hq, Hlast, Hmc1. reflexivity. }
  intros Hmax. rewrite Hmax, MAX_COUNT_val in *.
  unfold TIMER_PERIOD_CYCLES, SM_FREQ. lia.
Qed.

(** An instance: the program's channel as [__init__] leaves it. *)
Lemma tick_fits_timer_period_witness :
  exists (c : nat) (p' : PIOPWM),
    (forall fuel, (Z.to_nat (2 * 65535 + 6) <= fuel)%nat ->
       tick_count fuel (Build_PIOPWM (SM 0 0 0 65535 65535 false []) 65535) =
       Some (c, p')
       /\ tick fuel (Build_PIOPWM (SM 0 0 0 65535 65535 false []) 65535) =
          Some p')
    /\ (c <= 513 * Z.to_nat (2 * 65535 + 6))%nat
    /\ in_period (_sm p')
    /\ isr (_sm p') = 65535
    /\ _max_count p' = 65535
    /\ (exists q, tx_fifo (_sm p') = q ++ [to_word (clamp 65535 0)])
    /\ (65535 = MAX_COUNT -> Z.of_nat c < TIMER_PERIOD_CYCLES).
Proof.
  apply (tick_fits_timer_period
           (Build_PIOPWM (SM 0 0 0 65535 65535 false []) 65535)).
  unfold in_period, wf, TX_DEPTH.
  cbn [_sm pc x y isr tx_fifo length pwm_prog]. rewrite WORD_val. lia.
Defined.

(** X8. Whatever [set] is called with, the threshold register never
    holds anything but the off sentinel [2^32 - 1] or a counter value
    from 0 to [max_count], in any state the system reaches after
    [__init__]; the same holds of the OSR and of every pending word. *)
Theorem threshold_always_valid
  (sm_id pin_no max_count count_freq : Z) (p : PIOPWM) (s : sm_state) :
  0 <= max_count < WORD ->
  __init__ sm_id pin_no max_count count_freq = Some p ->
  reachable (set_word max_count) (_sm p) s ->
  threshold_ok max_count (x s)
  /\ threshold_ok max_count (osr s)
  /\ Forall (threshold_ok max_count) (tx_fifo s).
Proof.
  intros Hmc Hinit Hreach. rewrite init_state in Hinit.
  injection Hinit as <-. cbn [_sm] in Hreach.
  rewrite (to_word_small max_count Hmc) in Hreach.
  refine (reachable_threshold (threshold_ok max_count) (set_word max_count)
            _ s _ _ _ _ Hreach).
  - intros w. now apply set_word_ok.
  - right. cbn [x]. lia.
  - right. cbn [osr]. lia.
  - constructor.
Qed.

(** An instance: a channel with period register 2, after [set(-5)],
    which puts the off sentinel, and two clock cycles. *)
Lemma threshold_always_valid_witness :
  threshold_ok 2 (x (steps 2 (push 4294967295 (SM 0 0 0 2 2 false []))))
  /\ threshold_ok 2 (osr (steps 2 (push 4294967295 (SM 0 0 0 2 2 false []))))
  /\ Forall (threshold_ok 2)
            (tx_fifo (steps 2 (push 4294967295 (SM 0 0 0 2 2 false [])))).
Proof.
  apply (threshold_always_valid 0 25 2 10000000
           (Build_PIOPWM (SM 0 0 0 2 2 false []) 2)
           (steps 2 (push 4294967295 (SM 0 0 0 2 2 false [])))).
  - rewrite WORD_val. lia.
  - reflexivity.
  - cbn [_sm]. apply reachable_steps.
    apply (reach_step _ _ (SM 0 0 0 2 2 false [])).
    + apply reach_init.
    + apply sys_put.
      * reflexivity.
      * exists (-5). reflexivity.
Defined.

(** X9. The pin changes in two places only: the fetch at address 0
    takes it LOW, and the instruction at address 4 takes it HIGH, which
    in every state the system reaches after [__init__] happens with the
    counter equal to the threshold.  No other instruction and no put
    changes the pin, and a put changes nothing but the FIFO. *)
Theorem pin_changes_at_fetch_and_match
  (sm_id pin_no max_count count_freq : Z) (p : PIOPWM) (s : sm_state) :
  __init__ sm_id pin_no max_count count_freq = Some p ->
  reachable any_word (_sm p) s ->
  (pin (step s) = pin s
   \/ (pc s = 0%nat /\ pin s = true /\ pin (step s) = false)
   \/ (pc s = 4%nat /\ x s = y s /\ pin s = false /\ pin (step s) = true))
  /\ forall w,
       push w s =
       SM (pc s) (x s) (y s) (osr s) (isr s) (pin s) (tx_fifo s ++ [w]).
Proof.
  intros Hinit Hreach.
  pose proof (reachable_in_period _ _ _ (init_in_period _ _ _ _ _ Hinit) Hreach)
    as (_ & _ & Hxy).
  split; [|reflexivity].
  destruct (step_pin s) as [H|[H|(Hpc & Hlow & Hhigh)]]; auto.
  right. right. auto.
Qed.

(** An instance: the state in which the HIGH side-set is about to be
    executed after [set(1)] on a channel with period register 2. *)
Lemma pin_changes_at_fetch_and_match_witness :
  (pin (step (SM 4 1 1 1 2 false [])) = pin (SM 4 1 1 1 2 false [])
   \/ (pc (SM 4 1 1 1 2 false []) = 0%nat
       /\ pin (SM 4 1 1 1 2 false []) = true
       /\ pin (step (SM 4 1 1 1 2 false [])) = false)
   \/ (pc (SM 4 1 1 1 2 false []) = 4%nat
       /\ x (SM 4 1 1 1 2 false []) = y (SM 4 1 1 1 2 false [])
       /\ pin (SM 4 1 1 1 2 false []) = false
       /\ pin (step (SM 4 1 1 1 2 false [])) = true))
  /\ forall w,
       push w (SM 4 1 1 1 2 false []) =
       SM (pc (SM 4 1 1 1 2 false [])) (x (SM 4 1 1 1 2 false []))
          (y (SM 4 1 1 1 2 false [])) (osr (SM 4 1 1 1 2 false []))
          (isr (SM 4 1 1 1 2 false [])) (pin (SM 4 1 1 1 2 false []))
          (tx_fifo (SM 4 1 1 1 2 false []) ++ [w]).
Proof.
  apply (pin_changes_at_fetch_and_match 0 25 2 10000000
           (Build_PIOPWM (SM 0 0 0 2 2 false []) 2)).
  - reflexivity.
  - cbn [_sm].
    apply (reachable_steps any_word (SM 0 0 0 2 2 false []) 6
             (push 1 (SM 0 0 0 2 2 false []))).
    apply (reach_step _ _ (SM 0 0 0 2 2 false [])).
    + apply reach_init.
    + apply (sys_put any_word (SM 0 0 0 2 2 false []) 1).
      * reflexivity.
      * exists 1. reflexivity.
Defined.

(** X10. [__init__] does not check [max_count].  For a [max_count] of
    [2^32] or more, the period register gets [max_count] truncated to
    32 bits while [set] goes on clamping at [max_count] itself: a value
    above the period register (and below [2^32 - 1]) passes the clamp
    unchanged, is put as it is, and turns the output off, as the
    counter never reaches it. *)
Theorem max_count_is_not_checked
  (sm_id pin_no max_count count_freq value : Z) (p : PIOPWM) :
  WORD <= max_count ->
  __init__ sm_id pin_no max_count count_freq = Some p ->
  to_word max_count < value < WORD - 1 ->
  isr (_sm p) = to_word max_count
  /\ isr (_sm p) < _max_count p
  /\ clamp (_max_count p) value = value
  /\ exists (p1 : PIOPWM) (tr : list event),
       set 0 value p = Some p1
       /\ tx_fifo (_sm p1) = [value]
       /\ (forall fuel, (Z.to_nat (3 * to_word max_count + 6) <= fuel)%nat ->
             run_period fuel (_sm p1) = Some (tr, period_end (_sm p1)))
       /\ high_fired tr = 0%nat
       /\ high_cycles tr = 0%nat.
Proof.
  intros Hbig Hinit Hv. rewrite init_state in Hinit. injection Hinit as <-.
  cbn [_sm _max_count isr].
  pose proof (to_word_range max_count) as Hw.
  assert (Hclamp : clamp max_count value = value) by (unfold clamp; lia).
  split; [reflexivity|]. split; [lia|]. split; [exact Hclamp|].
  set (s1 := SM 0 0 0 (to_word max_count) (to_word max_count) false [value]).
  exists (Build_PIOPWM s1 max_count),
         (period_events 0 value (Z.to_nat (to_word max_count))).
  assert (Hword : to_word value = value) by (apply to_word_small; lia).
  split.
  { unfold set. cbn [_sm _max_count put full tx_fifo length].
    rewrite Hclamp. unfold push, set_fifo. cbn. rewrite Hword. reflexivity. }
  split; [reflexivity|].
  split.
  { intros fuel Hfuel. cbn [_sm].
    rewrite run_whole_period; unfold s1; cbn [pc isr]; trivial; lia. }
  assert (Hover : value < 0 \/ Z.of_nat (Z.to_nat (to_word max_count)) < value)
    by (right; lia).
  split; [rewrite period_fired; now apply fired_none|].
  rewrite period_high_cycles. apply high_cycles_none.
  eapply Forall_impl; [|apply (loop_all_low _ _ Hover)].
  intros e [He _]. exact He.
Qed.

(** An instance: [max_count = 2^32 + 5] makes a period register of 5,
    and [set(100)] turns the output off. *)
Lemma max_count_is_not_checked_witness :
  isr (_sm (Build_PIOPWM (SM 0 0 0 5 5 false []) 4294967301)) = to_word 4294967301
  /\ isr (_sm (Build_PIOPWM (SM 0 0 0 5 5 false []) 4294967301))
     < _max_count (Build_PIOPWM (SM 0 0 0 5 5 false []) 4294967301)
  /\ clamp (_max_count (Build_PIOPWM (SM 0 0 0 5 5 false []) 4294967301)) 100
     = 100
  /\ exists (p1 : PIOPWM) (tr : list event),
       set 0 100 (Build_PIOPWM (SM 0 0 0 5 5 false []) 4294967301) = Some p1
       /\ tx_fifo (_sm p1) = [100]
       /\ (forall fuel, (Z.to_nat (3 * to_word 4294967301 + 6) <= fuel)%nat ->
             run_period fuel (_sm p1) = Some (tr, period_end (_sm p1)))
       /\ high_fired tr = 0%nat
       /\ high_cycles tr = 0%nat.
Proof.
  apply (max_count_is_not_checked 0 25 4294967301 10000000 100
           (Build_PIOPWM (SM 0 0 0 5 5 false []) 4294967301)).
  - rewrite WORD_val. lia.
  - reflexivity.
  - change (to_word 4294967301) with 5. rewrite WORD_val. lia.
Defined.
